(** * The proof aggregation coordinator of zkevm-node

    A shallow embedding of [aggregator/aggregator.go] (the gate that debounces
    final proofs, the three pipeline operations, the scheduler loop and the
    final-proof dispatcher), of [ethtxmanager/monitoredtx.go]
    ([monitoredTx.Tx], [AddHistory], [historyStringSlice]) and of the
    renewal of enqueued transactions in the [ethtxmanager] package.

    The aggregator is stateful and talks to collaborators it only knows by
    interface (the state store, the L1 client, the transaction manager, the
    prover on the other side of the stream).  The embedding therefore is a
    state monad over a [World]:

    - what a collaborator answers is read from an environment [Env], one
      answer per interaction point (a counter, [tick], names the point);
    - what the aggregator writes to the store is applied to a table of proof
      rows, so that the [generating] flag of a row can be observed;
    - the calls whose order matters are appended to a trace of events;
    - a Go run-time panic and a wait loop that does not finish are outcomes
      of their own.

    One run of an operation is sequential: the mutexes and the interleaving
    of several prover sessions are not modelled.  Of [Channel] the scheduler
    loop is embedded; [Start], the handshake of [Channel] and the health
    checker are left out. *)

From Stdlib Require Import ZArith String List Bool Lia.
From stdpp Require Import gmap strings.
Import ListNotations.
Open Scope Z_scope.

(** ** Machine integers *)

(** Go's [uint64] arithmetic wraps around. *)
Definition uint64_modulus : Z := 2 ^ 64.

Definition uint64_add (x y : Z) : Z := (x + y) mod uint64_modulus.

Definition uint64_sub (x y : Z) : Z := (x - y) mod uint64_modulus.

(** ** Errors *)

(** Go [error] values.  [ErrWrap] is [fmt.Errorf] with a [%w] verb, [ErrMsg]
    is [errors.New] or [fmt.Errorf] without one; a nil error is [None]. *)
Inductive error : Type :=
| ErrNotFound                (* state.ErrNotFound *)
| ErrStateNotSynchronized    (* state.ErrStateNotSynchronized *)
| ErrCanceled                (* context.Canceled, what ctx.Err() gives *)
| ErrMsg (msg : string)
| ErrWrap (msg : string) (e : error).

Fixpoint error_eqb (e1 e2 : error) : bool :=
  match e1, e2 with
  | ErrNotFound, ErrNotFound => true
  | ErrStateNotSynchronized, ErrStateNotSynchronized => true
  | ErrCanceled, ErrCanceled => true
  | ErrMsg m1, ErrMsg m2 => String.eqb m1 m2
  | ErrWrap m1 e1', ErrWrap m2 e2' => String.eqb m1 m2 && error_eqb e1' e2'
  | _, _ => false
  end.

(** [errors.Is(err, target)] for a sentinel [target]: walks the chain of
    wrapped errors. *)
Fixpoint unwraps_to (target e : error) : bool :=
  error_eqb e target ||
  match e with
  | ErrWrap _ e' => unwraps_to target e'
  | _ => false
  end.

Definition errors_Is (err : option error) (target : error) : bool :=
  match err with
  | None => false
  | Some e => unwraps_to target e
  end.

(** [err != nil] *)
Definition notNil {A : Type} (x : option A) : bool :=
  match x with
  | Some _ => true
  | None => false
  end.

(** [err == target], the comparison of interface values that [isSynced] and
    [buildInputProver] use instead of [errors.Is]. *)
Definition err_is_exactly (err : option error) (target : error) : bool :=
  match err with
  | None => false
  | Some e => error_eqb e target
  end.

(** ** Data model *)

Definition bytes : Type := list Byte.byte.

(** [string(b)] for a byte slice [b]. *)
Definition string_of_bytes (b : bytes) : string := string_of_list_byte b.

Module Batch.
(** Modelled from the spec: [state.Batch] (its declaration is in the state
    package); the fields are those of the spec's data model, which are the
    ones the aggregator reads. *)
Record t : Type := mk {
  BatchNumber : Z;
  Coinbase : string;
  BatchL2Data : bytes;
  StateRoot : bytes;
  LocalExitRoot : bytes;
  AccInputHash : bytes;
  Timestamp : Z;
  GlobalExitRoot : bytes
}.
End Batch.

Module VerifiedBatch.
(** Modelled from the spec: [state.VerifiedBatch]; the aggregator reads its
    batch number only. *)
Record t : Type := mk { BatchNumber : Z }.
End VerifiedBatch.

Module Proof.
(** Modelled from the spec: [state.Proof], the proof row of the spec's data
    model (the time stamps, which the aggregator never touches, left out).
    [ProofID] and [Prover] are Go string pointers. *)
Record t : Type := mk {
  BatchNumber : Z;
  BatchNumberFinal : Z;
  Payload : string;            (* the field Proof *)
  InputProver : string;
  ProofID : option string;
  Prover : option string;
  Generating : bool
}.

Definition setGenerating (g : bool) (p : t) : t :=
  mk (BatchNumber p) (BatchNumberFinal p) (Payload p) (InputProver p)
     (ProofID p) (Prover p) g.

Definition setProofID (id : option string) (p : t) : t :=
  mk (BatchNumber p) (BatchNumberFinal p) (Payload p) (InputProver p)
     id (Prover p) (Generating p).

Definition setPayload (x : string) (p : t) : t :=
  mk (BatchNumber p) (BatchNumberFinal p) x (InputProver p)
     (ProofID p) (Prover p) (Generating p).

Definition setInputProver (x : string) (p : t) : t :=
  mk (BatchNumber p) (BatchNumberFinal p) (Payload p) x
     (ProofID p) (Prover p) (Generating p).

(** A row is identified by the range it covers. *)
Definition key (p : t) : Z * Z := (BatchNumber p, BatchNumberFinal p).
End Proof.

(** [pb.PublicInputsExtended] and [pb.FinalProof], as far as the aggregator
    reads and writes them. *)
Record PublicInputsExtended : Type := {
  NewStateRoot : bytes;
  NewAccInputHash : bytes;
  NewLocalExitRoot : bytes;
  NewBatchNum : Z
}.

Record FinalProof : Type := {
  FinalProof_Proof : string;
  Public : option PublicInputsExtended
}.

(** [pb.PublicInputs] and [pb.InputProver], the bundle sent with a batch. *)
Record PublicInputs : Type := {
  OldStateRoot : bytes;
  OldAccInputHash : bytes;
  OldBatchNum : Z;
  ChainId : Z;
  PI_BatchL2Data : bytes;
  PI_GlobalExitRoot : bytes;
  EthTimestamp : Z;
  SequencerAddr : string;
  AggregatorAddr : string
}.

Record InputProver : Type := {
  IP_PublicInputs : PublicInputs;
  Db : list (string * string);
  ContractsBytecode : list (string * string)
}.

(** [ethmanTypes.FinalProofInputs] *)
Record FinalProofInputs : Type := {
  FPI_FinalProof : option FinalProof;
  FPI_NewLocalExitRoot : bytes;
  FPI_NewStateRoot : bytes
}.

Record finalProofMsg : Type := {
  proverID : string;
  recursiveProof : option Proof.t;
  finalProof : option FinalProof
}.

(** The part of [Config] that the modelled functions read; durations and
    instants are integers (nanoseconds). *)
Record Config : Type := {
  RetryTime : Z;
  VerifyProofInterval : Z;
  ChainID : Z
}.

Definition mockedStateRoot : string :=
  "0x090bcaf734c4f06c93954a827b45a6e8c67b8e0fd1e0a35a1c5982d6961828f9".

Definition mockedLocalExitRoot : string :=
  "0x17c04c3760510b48c6012742c540a81aba4bca2f78b9d14bfd2f123e2e53ea3e".

(** ** The environment

    One field per call of a collaborator; the first argument is the
    interaction point.  A Go function that returns a pointer and an error answers a
    pair of options: nothing constrains a collaborator to return exactly one
    of the two. *)
Record Env : Type := {
  time_Now : nat -> Z;
  ctx_Done : nat -> bool;                      (* a.ctx is cancelled *)
  (* state store: selections *)
  GetLastVerifiedBatch : nat -> option VerifiedBatch.t * option error;
  GetVirtualBatchToProve : nat -> Z -> option Batch.t * option error;
  GetBatchByNumber : nat -> Z -> option Batch.t * option error;
  GetProofReadyToVerify : nat -> Z -> option Proof.t * option error;
  GetProofsToAggregate : nat -> option Proof.t * option Proof.t * option error;
  CheckProofContainsCompleteSequences : nat -> Proof.t -> bool * option error;
  (* state store: whether a write or a transaction step fails *)
  AddGeneratedProof_err : nat -> option error;
  UpdateGeneratedProof_err : nat -> option error;
  DeleteGeneratedProofs_err : nat -> option error;
  BeginStateTransaction_err : nat -> option error;
  Commit_err : nat -> option error;
  (* L1 client, transaction manager, profitability policy *)
  GetPublicAddress : nat -> string * option error;
  GetLatestVerifiedBatchNum : nat -> Z * option error;
  VerifyBatches : nat -> Z -> Z -> FinalProofInputs -> option string * option error;
  IsProfitable : nat -> bool * option error;
  (* the prover session *)
  prover_ID : string;
  BatchProof : nat -> InputProver -> option string * option error;
  AggregatedProof : nat -> string -> string -> option string * option error;
  FinalProof_req : nat -> string -> string -> option string * option error;
  WaitRecursiveProof : nat -> string -> string * option error;
  WaitFinalProof : nat -> string -> option FinalProof * option error;
  (* json.Marshal of a prover input *)
  json_Marshal_input : nat -> InputProver -> string * option error;
  json_Marshal_pair : nat -> string -> string -> string * option error
}.

(** ** The world: gate, proof table, trace *)

(** The calls whose order or arguments the properties speak about. *)
Inductive Event : Type :=
| EvSleep (d : Z)
| EvIsSynced (synced : bool)
| EvEnableProofVerification
| EvResetVerifyProofTime
| EvVerifyBatches (lastVerifiedBatch finalBatch : Z) (inputs : FinalProofInputs)
| EvAddGeneratedProof (p : Proof.t)
| EvUpdateGeneratedProof (p : Proof.t)
| EvDeleteGeneratedProofs (batchNumber batchNumberFinal : Z)
| EvSendFinalProof (msg : finalProofMsg).

(** [TimeSendFinalProof] and [verifyingProof] are the two gate fields of the
    [Aggregator] struct.  [proofs] is the store's table of proof rows and
    [pending] the working copy of the transaction that is open, if any. *)
Record World : Type := {
  TimeSendFinalProof : Z;
  verifyingProof : bool;
  proofs : gmap (Z * Z) Proof.t;
  pending : option (gmap (Z * Z) Proof.t);
  tick : nat;
  trace : list Event
}.

Definition set_TimeSendFinalProof (deadline : Z) (w : World) : World :=
  {| TimeSendFinalProof := deadline; verifyingProof := verifyingProof w;
     proofs := proofs w; pending := pending w; tick := tick w; trace := trace w |}.

Definition set_verifyingProof (b : bool) (w : World) : World :=
  {| TimeSendFinalProof := TimeSendFinalProof w; verifyingProof := b;
     proofs := proofs w; pending := pending w; tick := tick w; trace := trace w |}.

Definition set_proofs (m : gmap (Z * Z) Proof.t) (w : World) : World :=
  {| TimeSendFinalProof := TimeSendFinalProof w; verifyingProof := verifyingProof w;
     proofs := m; pending := pending w; tick := tick w; trace := trace w |}.

Definition set_pending (m : option (gmap (Z * Z) Proof.t)) (w : World) : World :=
  {| TimeSendFinalProof := TimeSendFinalProof w; verifyingProof := verifyingProof w;
     proofs := proofs w; pending := m; tick := tick w; trace := trace w |}.

Definition next_tick (w : World) : World :=
  {| TimeSendFinalProof := TimeSendFinalProof w; verifyingProof := verifyingProof w;
     proofs := proofs w; pending := pending w; tick := S (tick w); trace := trace w |}.

Definition add_event (e : Event) (w : World) : World :=
  {| TimeSendFinalProof := TimeSendFinalProof w; verifyingProof := verifyingProof w;
     proofs := proofs w; pending := pending w; tick := tick w; trace := trace w ++ [e] |}.

(** ** The monad *)

Inductive outcome (S A : Type) : Type :=
| Ret (a : A) (s : S)       (* returned [a] *)
| Panic (s : S)             (* run-time panic (nil pointer dereference) *)
| OutOfFuel.                (* a wait loop did not finish *)

Arguments Ret {S A} a s.
Arguments Panic {S A} s.
Arguments OutOfFuel {S A}.

Definition M (S A : Type) : Type := S -> outcome S A.

Definition ret {S A : Type} (a : A) : M S A := fun s => Ret a s.

Definition bind {S A B : Type} (m : M S A) (k : A -> M S B) : M S B :=
  fun s =>
    match m s with
    | Ret a s' => k a s'
    | Panic s' => Panic s'
    | OutOfFuel => OutOfFuel
    end.

Notation "'do' X <- A ; B" := (bind A (fun X => B))
  (at level 10, X pattern, A at level 100, B at level 200).

Definition panic {S A : Type} : M S A := fun s => Panic s.

Definition modify {S : Type} (f : S -> S) : M S unit := fun s => Ret tt (f s).

Definition gets {S A : Type} (f : S -> A) : M S A := fun s => Ret (f s) s.

(** [*p] for a pointer [p]: panics on nil. *)
Definition deref {S A : Type} (p : option A) : M S A :=
  match p with
  | Some x => ret x
  | None => panic
  end.

(** ** Function frames: local variables and deferred calls

    The pipeline operations declare [var err error] and register deferred
    closures that read [err] (and, in [tryBuildFinalProof], [proof]) when the
    function returns or panics.  A frame holds the captured variables and the
    deferred closures, last registered first. *)
Record Frame (W V : Type) : Type := {
  vars : V;
  deferred : list (V -> M W unit)
}.

Arguments vars {W V} f.
Arguments deferred {W V} f.

Definition F (W V A : Type) : Type := M (Frame W V * W) A.

Definition lift {W V A : Type} (m : M W A) : F W V A :=
  fun fw =>
    match m (snd fw) with
    | Ret a w' => Ret a (fst fw, w')
    | Panic w' => Panic (fst fw, w')
    | OutOfFuel => OutOfFuel
    end.

Definition get_vars {W V : Type} : F W V V :=
  fun fw => Ret (vars (fst fw)) fw.

Definition set_vars {W V : Type} (v : V) : F W V unit :=
  fun fw => Ret tt ({| vars := v; deferred := deferred (fst fw) |}, snd fw).

Definition defer {W V : Type} (d : V -> M W unit) : F W V unit :=
  fun fw => Ret tt ({| vars := vars (fst fw); deferred := d :: deferred (fst fw) |}, snd fw).

(** Deferred calls run in order, each reading the variables as the function
    left them; a panic inside one does not stop the remaining ones. *)
Fixpoint run_deferred {W V : Type} (ds : list (V -> M W unit)) (v : V) : M W unit :=
  match ds with
  | [] => ret tt
  | d :: ds' =>
      fun w =>
        match d v w with
        | Ret _ w' => run_deferred ds' v w'
        | Panic w' =>
            match run_deferred ds' v w' with
            | Ret _ w'' => Panic w''
            | o => o
            end
        | OutOfFuel => OutOfFuel
        end
  end.

(** Runs a function body in a fresh frame, then its deferred calls; gives the
    returned value together with the final value of the variables. *)
Definition run_frame {W V R : Type} (v0 : V) (body : F W V R) : M W (V * R) :=
  fun w =>
    match body ({| vars := v0; deferred := [] |}, w) with
    | Ret r (f, w') =>
        match run_deferred (deferred f) (vars f) w' with
        | Ret _ w'' => Ret (vars f, r) w''
        | Panic w'' => Panic w''
        | OutOfFuel => OutOfFuel
        end
    | Panic (f, w') =>
        match run_deferred (deferred f) (vars f) w' with
        | Ret _ w'' => Panic w''
        | Panic w'' => Panic w''
        | OutOfFuel => OutOfFuel
        end
    | OutOfFuel => OutOfFuel
    end.

(** [fmt.Errorf(msg + " %w", err)] *)
Definition Errorf_w (msg : string) (err : option error) : option error :=
  match err with
  | Some e => Some (ErrWrap msg e)
  | None => Some (ErrMsg msg)
  end.

(** ** The collaborators *)

Section Aggregator.

Variable cfg : Config.
Variable env : Env.

(** The answer of the environment at the current interaction point. *)
Definition ask {A : Type} (f : Env -> nat -> A) : M World A :=
  fun w => Ret (f env (tick w)) (next_tick w).

Definition emit (e : Event) : M World unit := modify (add_event e).

Definition time_Sleep (d : Z) : M World unit := emit (EvSleep d).

(** *** The store's writes

    The store is behind [stateInterface]; the code of its mutation
    primitives and transactions is in the state package.  A row is identified
    by the range it covers.  Whether a call fails is the environment's
    choice; a failed call changes nothing. *)

(** A transaction handle ([pgx.Tx]); [None] is the nil handle. *)
Definition pgx_Tx : Type := unit.

(** A write without a transaction goes to the table, a write under a
    transaction to the transaction's working copy. *)
Definition apply_write (dbTx : option pgx_Tx)
    (f : gmap (Z * Z) Proof.t -> gmap (Z * Z) Proof.t) (w : World) : World :=
  match dbTx with
  | None => set_proofs (f (proofs w)) w
  | Some _ => set_pending (f <$> pending w) w
  end.

Definition in_range (from to : Z) (k : Z * Z) : bool :=
  (from <=? fst k) && (snd k <=? to).

(** Modelled from the spec: what [delete_generated_proofs(from, to)] removes,
    the rows with [from <= batch_number] and [batch_number_final <= to]. *)
Definition delete_range (from to : Z) (m : gmap (Z * Z) Proof.t) : gmap (Z * Z) Proof.t :=
  filter (fun kv => in_range from to (fst kv) = false) m.

Definition store_write (failure : Env -> nat -> option error) (dbTx : option pgx_Tx)
    (f : gmap (Z * Z) Proof.t -> gmap (Z * Z) Proof.t) : M World (option error) :=
  do err <- ask failure;
  match err with
  | Some e => ret (Some e)
  | None => do _ <- modify (apply_write dbTx f); ret None
  end.

(** Modelled from the spec: [State.AddGeneratedProof], which inserts the row
    of the proof's range. *)
Definition State_AddGeneratedProof (p : Proof.t) (dbTx : option pgx_Tx) : M World (option error) :=
  do _ <- emit (EvAddGeneratedProof p);
  store_write AddGeneratedProof_err dbTx (insert (Proof.key p) p).

(** Modelled from the spec: [State.UpdateGeneratedProof], which rewrites the
    row of the proof's range and does nothing when there is none. *)
Definition State_UpdateGeneratedProof (p : Proof.t) (dbTx : option pgx_Tx) : M World (option error) :=
  do _ <- emit (EvUpdateGeneratedProof p);
  store_write UpdateGeneratedProof_err dbTx (alter (fun _ => p) (Proof.key p)).

(** Modelled from the spec: [State.DeleteGeneratedProofs]. *)
Definition State_DeleteGeneratedProofs (from to : Z) (dbTx : option pgx_Tx) : M World (option error) :=
  do _ <- emit (EvDeleteGeneratedProofs from to);
  store_write DeleteGeneratedProofs_err dbTx (delete_range from to).

(** Modelled from the spec: [State.BeginStateTransaction]; the transaction
    starts from the table as it is. *)
Definition State_BeginStateTransaction : M World (option pgx_Tx * option error) :=
  do err <- ask BeginStateTransaction_err;
  match err with
  | Some e => ret (None, Some e)
  | None => do _ <- modify (fun w => set_pending (Some (proofs w)) w); ret (Some tt, None)
  end.

(** Modelled from the spec: [dbTx.Commit], which installs the working copy;
    a commit that fails drops it. *)
Definition dbTx_Commit : M World (option error) :=
  do err <- ask Commit_err;
  match err with
  | Some e => do _ <- modify (set_pending None); ret (Some e)
  | None =>
      do _ <- modify (fun w =>
                match pending w with
                | Some m => set_pending None (set_proofs m w)
                | None => w
                end);
      ret None
  end.

(** Modelled from the spec: [dbTx.Rollback], which drops the working copy. *)
Definition dbTx_Rollback : M World unit := modify (set_pending None).

(** ** The gate *)

Definition canVerifyProof : M World bool :=
  do now <- ask time_Now;
  do deadline <- gets TimeSendFinalProof;
  if deadline <? now then            (* a.TimeSendFinalProof.Before(time.Now()) *)
    do verifying <- gets verifyingProof;
    if verifying then ret false
    else do _ <- modify (set_verifyingProof true); ret true
  else ret false.

Definition enableProofVerification : M World unit :=
  do _ <- emit EvEnableProofVerification;
  modify (set_verifyingProof false).

Definition resetVerifyProofTime : M World unit :=
  do _ <- emit EvResetVerifyProofTime;
  do _ <- modify (set_verifyingProof false);
  do now <- ask time_Now;
  modify (set_TimeSendFinalProof (now + VerifyProofInterval cfg)).

(** ** Synchronisation *)

Definition isSynced : M World bool :=
  do r <- ask GetLastVerifiedBatch;
  let '(lastVerifiedBatch, err) := r in
  if notNil err && negb (err_is_exactly err ErrNotFound) then ret false
  else
    match lastVerifiedBatch with
    | None => ret false
    | Some lvb =>
        do r <- ask GetLatestVerifiedBatchNum;
        let '(lastVerifiedEthBatchNum, err) := r in
        if notNil err then ret false
        else if VerifiedBatch.BatchNumber lvb <? lastVerifiedEthBatchNum then ret false
        else ret true
    end.

(** [for !a.isSynced(ctx) { time.Sleep(a.cfg.RetryTime.Duration) }], the loop
    of [tryBuildFinalProof] and of [sendFinalProof].  Each poll is recorded
    in the trace. *)
Fixpoint waitSynced (fuel : nat) : M World unit :=
  match fuel with
  | O => fun _ => OutOfFuel
  | S fuel' =>
      do synced <- isSynced;
      do _ <- emit (EvIsSynced synced);
      if synced then ret tt
      else do _ <- time_Sleep (RetryTime cfg); waitSynced fuel'
  end.


(** ** Building the final proof *)

(** [buildFinalProof].  The callee stores the final proof's id in the proof
    object it was handed ([proof.ProofID = finalProofID]); the caller holds
    the same pointer, so the proof object as the callee left it is returned
    next to the Go results. *)
Definition buildFinalProof (proof : Proof.t)
    : M World (Proof.t * (option FinalProof * option error)) :=
  do r <- ask GetPublicAddress;
  let '(pubAddr, err) := r in
  if notNil err then ret (proof, (None, Errorf_w "Failed to get public address," err))
  else
  do r <- ask (fun e t => FinalProof_req e t (Proof.Payload proof) pubAddr);
  let '(finalProofID, err) := r in
  if notNil err then ret (proof, (None, Errorf_w "Failed to get final proof id," err))
  else
  let proof := Proof.setProofID finalProofID proof in
  do id <- deref (Proof.ProofID proof);
  do r <- ask (fun e t => WaitFinalProof e t id);
  let '(finalProof, err) := r in
  if notNil err then ret (proof, (None, Errorf_w "Failed to get final proof from prover," err))
  else
  do fp <- deref finalProof;
  do pub <- deref (Public fp);
  (* mock prover sanity check *)
  if String.eqb (string_of_bytes (NewStateRoot pub)) mockedStateRoot
     && String.eqb (string_of_bytes (NewLocalExitRoot pub)) mockedLocalExitRoot
  then
    do r <- ask (fun e t => GetBatchByNumber e t (Proof.BatchNumberFinal proof));
    let '(finalBatch, err) := r in
    if notNil err then ret (proof, (None, Some (ErrMsg "Failed to retrieve batch with number")))
    else
    do fb <- deref finalBatch;
    let pub' := {| NewStateRoot := Batch.StateRoot fb;
                   NewAccInputHash := NewAccInputHash pub;
                   NewLocalExitRoot := Batch.LocalExitRoot fb;
                   NewBatchNum := NewBatchNum pub |} in
    ret (proof, (Some {| FinalProof_Proof := FinalProof_Proof fp; Public := Some pub' |}, None))
  else ret (proof, (Some fp, None)).

Definition validateEligibleFinalProof (proof : Proof.t) (lastVerifiedBatchNum : Z)
    : M World (bool * option error) :=
  let batchNumberToVerify := uint64_add lastVerifiedBatchNum 1 in
  if negb (Proof.BatchNumber proof =? batchNumberToVerify) then ret (false, None)
  else
  do r <- ask (fun e t => CheckProofContainsCompleteSequences e t proof);
  let '(bComplete, err) := r in
  if notNil err then
    ret (false, Errorf_w "Failed to check if proof contains compete sequences," err)
  else if negb bComplete then ret (false, None)
  else ret (true, None).

Definition getAndLockProofReadyToVerify (lastVerifiedBatchNum : Z)
    : M World (option Proof.t * option error) :=
  do r <- ask (fun e t => GetProofReadyToVerify e t lastVerifiedBatchNum);
  let '(proofToVerify, err) := r in
  if notNil err then ret (None, err)
  else
  do p <- deref proofToVerify;
  let p := Proof.setGenerating true p in
  do err <- State_UpdateGeneratedProof p None;
  if notNil err then ret (None, err)
  else ret (Some p, None).

(** [lastVerifiedBatchNum] in [tryBuildFinalProof]: zero unless a last
    verified batch was found. *)
Definition lastVerifiedBatchNum_of (lastVerifiedBatch : option VerifiedBatch.t) : Z :=
  match lastVerifiedBatch with
  | Some lvb => VerifiedBatch.BatchNumber lvb
  | None => 0
  end.

(** The variables of [tryBuildFinalProof] that its deferred closures read. *)
Record tryBuildFinalProof_vars : Type := {
  v_err : option error;
  v_proof : option Proof.t
}.

Definition assign_err {W : Type} (err : option error) : F W tryBuildFinalProof_vars unit :=
  do v <- get_vars;
  set_vars {| v_err := err; v_proof := v_proof v |}.

Definition assign_proof {W : Type} (proof : option Proof.t) : F W tryBuildFinalProof_vars unit :=
  do v <- get_vars;
  set_vars {| v_err := v_err v; v_proof := proof |}.

(** The deferred closure that re-opens the gate. *)
Definition tryBuildFinalProof_defer1 (v : tryBuildFinalProof_vars) : M World unit :=
  if notNil (v_err v) then enableProofVerification else ret tt.

(** The deferred closure that unlocks the proof taken from the store. *)
Definition tryBuildFinalProof_defer2 (v : tryBuildFinalProof_vars) : M World unit :=
  if notNil (v_err v) then
    do p <- deref (v_proof v);
    do _err2 <- State_UpdateGeneratedProof (Proof.setGenerating false p) None;
    ret tt
  else ret tt.

(** The tail of [tryBuildFinalProof], from [buildFinalProof] on. *)
Definition tryBuildFinalProof_build (p : Proof.t)
    : F World tryBuildFinalProof_vars (bool * option error) :=
  do r <- lift (buildFinalProof p);
  let '(p', (finalProof, err)) := r in
  do _ <- assign_proof (Some p');
  do _ <- assign_err err;
  if notNil err then ret (false, Errorf_w "Failed to build final proof," err)
  else
  match finalProof with
  | None =>
      let err := Some (ErrMsg "Error generating final proof for proof ready to verify") in
      do _ <- assign_err err;
      ret (false, err)
  | Some _ =>
      let msg := {| proverID := prover_ID env; recursiveProof := Some p';
                    finalProof := finalProof |} in
      do done <- lift (ask ctx_Done);
      if done then ret (false, Some ErrCanceled)      (* return false, a.ctx.Err() *)
      else
        do _ <- lift (emit (EvSendFinalProof msg));    (* a.finalProof <- msg *)
        ret (true, None)
  end.

(** [tryBuildFinalProof].  The result carries the proof object as the call
    left it, next to the Go results [(bool, error)]. *)
Definition tryBuildFinalProof (fuel : nat) (proof : option Proof.t)
    : M World (option Proof.t * (bool * option error)) :=
  do can <- canVerifyProof;
  if negb can then ret (proof, (false, None))
  else
  do r <- run_frame {| v_err := None; v_proof := proof |} (
    do _ <- defer tryBuildFinalProof_defer1;
    do _ <- lift (waitSynced fuel);
    do r <- lift (ask GetLastVerifiedBatch);
    let '(lastVerifiedBatch, err) := r in
    do _ <- assign_err err;
    if notNil err && negb (errors_Is err ErrNotFound) then
      ret (false, Errorf_w "Failed to get last verified batch," err)
    else
    let lastVerifiedBatchNum := lastVerifiedBatchNum_of lastVerifiedBatch in
    match proof with
    | None =>
        do r <- lift (getAndLockProofReadyToVerify lastVerifiedBatchNum);
        let '(proof', err) := r in
        do _ <- assign_proof proof';
        do _ <- assign_err err;
        if errors_Is err ErrNotFound then ret (false, None)
        else if notNil err then ret (false, err)
        else
        do _ <- defer tryBuildFinalProof_defer2;
        do p <- lift (deref proof');
        tryBuildFinalProof_build p
    | Some p =>
        do r <- lift (validateEligibleFinalProof p lastVerifiedBatchNum);
        let '(eligible, err) := r in
        do _ <- assign_err err;
        if notNil err then
          ret (false, Errorf_w "Failed to validate eligible final proof," err)
        else if negb eligible then ret (false, None)
        else tryBuildFinalProof_build p
    end);
  ret (v_proof (fst r), snd r).


(** ** Aggregating two proofs *)

Definition unlockProofsToAggregate (proof1 proof2 : option Proof.t) : M World (option error) :=
  do r <- State_BeginStateTransaction;
  let '(dbTx, err) := r in
  if notNil err then ret err
  else
  do p1 <- deref proof1;
  do err <- State_UpdateGeneratedProof (Proof.setGenerating false p1) dbTx;
  do err <- (if notNil err then ret err
             else
               do p2 <- deref proof2;
               State_UpdateGeneratedProof (Proof.setGenerating false p2) dbTx);
  if notNil err then
    do _ <- dbTx_Rollback;
    ret (Errorf_w "Failed to release proof aggregation state" err)
  else
  do err <- dbTx_Commit;
  if notNil err then ret (Errorf_w "Failed to release proof aggregation state" err)
  else ret None.

Definition getAndLockProofsToAggregate
    : M World (option Proof.t * option Proof.t * option error) :=
  do r <- ask GetProofsToAggregate;
  let '(proof1, proof2, err) := r in
  if notNil err then ret (None, None, err)
  else
  do r <- State_BeginStateTransaction;
  let '(dbTx, err) := r in
  if notNil err then ret (None, None, err)
  else
  do p1 <- deref proof1;
  let p1 := Proof.setGenerating true p1 in
  do err <- State_UpdateGeneratedProof p1 dbTx;
  do r <- (if notNil err then ret (proof2, err)
           else
             do p2 <- deref proof2;
             let p2 := Proof.setGenerating true p2 in
             do err <- State_UpdateGeneratedProof p2 dbTx;
             ret (Some p2, err));
  let '(proof2, err) := r in
  if notNil err then
    do _ <- dbTx_Rollback;
    ret (None, None, Errorf_w "Failed to set proof aggregation state" err)
  else
  do err <- dbTx_Commit;
  if notNil err then ret (None, None, Errorf_w "Failed to set proof aggregation state" err)
  else ret (Some p1, proof2, None).

(** The deferred closure of [tryAggregateProofs]; its variable is [err]. *)
Definition tryAggregateProofs_defer (proof1 proof2 : option Proof.t)
    (err : option error) : M World unit :=
  if notNil err then
    do _err2 <- unlockProofsToAggregate proof1 proof2;
    ret tt
  else ret tt.

Definition tryAggregateProofs (fuel : nat) : M World (bool * option error) :=
  do r <- getAndLockProofsToAggregate;
  let '(proof1, proof2, err0) := r in
  if errors_Is err0 ErrNotFound then ret (false, None)
  else if notNil err0 then ret (false, err0)
  else
  do r <- run_frame None (
    do _ <- defer (tryAggregateProofs_defer proof1 proof2);
    do p1 <- lift (deref proof1);
    do p2 <- lift (deref proof2);
    let proverID := prover_ID env in
    do r <- lift (ask (fun e t => json_Marshal_pair e t (Proof.Payload p1) (Proof.Payload p2)));
    let '(b, err) := r in
    do _ <- set_vars err;
    if notNil err then ret (false, Errorf_w "Failed to serialize input prover," err)
    else
    let proof := {| Proof.BatchNumber := Proof.BatchNumber p1;
                    Proof.BatchNumberFinal := Proof.BatchNumberFinal p2;
                    Proof.Payload := "";
                    Proof.InputProver := b;
                    Proof.ProofID := None;
                    Proof.Prover := Some proverID;
                    Proof.Generating := true |} in
    do r <- lift (ask (fun e t => AggregatedProof e t (Proof.Payload p1) (Proof.Payload p2)));
    let '(aggrProofID, err) := r in
    do _ <- set_vars err;
    if notNil err then ret (false, Errorf_w "Failed to get aggregated proof id," err)
    else
    let proof := Proof.setProofID aggrProofID proof in
    do id <- lift (deref (Proof.ProofID proof));
    do r <- lift (ask (fun e t => WaitRecursiveProof e t id));
    let '(recursiveProof, err) := r in
    do _ <- set_vars err;
    if notNil err then ret (false, Errorf_w "Failed to get aggregated proof from prover," err)
    else
    let proof := Proof.setPayload recursiveProof proof in
    (* remove the two aggregated proofs and store the new recursive proof *)
    do r <- lift State_BeginStateTransaction;
    let '(dbTx, err) := r in
    do _ <- set_vars err;
    if notNil err then
      ret (false, Errorf_w "Failed to begin transaction to update proof aggregation state" err)
    else
    do err <- lift (State_DeleteGeneratedProofs (Proof.BatchNumber p1) (Proof.BatchNumberFinal p2) dbTx);
    do _ <- set_vars err;
    if notNil err then
      do _ <- lift dbTx_Rollback;
      ret (false, Errorf_w "Failed to delete previously aggregated proofs" err)
    else
    do err <- lift (State_AddGeneratedProof proof dbTx);
    do _ <- set_vars err;
    if notNil err then
      do _ <- lift dbTx_Rollback;
      ret (false, Errorf_w "Failed to store the recursive proof" err)
    else
    do err <- lift dbTx_Commit;
    do _ <- set_vars err;
    if notNil err then ret (false, Errorf_w "Failed to store the recursive proof" err)
    else
    (* check if the final proof can be sent using the one just crafted *)
    do r <- lift (tryBuildFinalProof fuel (Some proof));
    let '(proof', (finalProofBuilt, err)) := r in
    do _ <- set_vars err;
    if notNil err then
      ret (false, Errorf_w "Failed trying to check if recursive proof can be verified:" err)
    else
    if negb finalProofBuilt then
      let p := default proof proof' in      (* the same pointer as [proof] *)
      do err <- lift (State_UpdateGeneratedProof (Proof.setGenerating false p) None);
      do _ <- set_vars err;
      if notNil err then ret (false, err)
      else ret (true, None)
    else ret (true, None));
  ret (snd r).


(** ** Generating a batch proof *)

Definition getAndLockBatchToProve
    : M World (option Batch.t * option Proof.t * option error) :=
  do r <- ask GetLastVerifiedBatch;
  let '(lastVerifiedBatch, err) := r in
  if notNil err then ret (None, None, err)
  else
  do lvb <- deref lastVerifiedBatch;
  (* get virtual batch pending to generate proof *)
  do r <- ask (fun e t => GetVirtualBatchToProve e t (VerifiedBatch.BatchNumber lvb));
  let '(batchToVerify, err) := r in
  if notNil err then ret (None, None, err)
  else
  do btv <- deref batchToVerify;
  do r <- ask IsProfitable;
  let '(isProfitable, err) := r in
  if notNil err then ret (None, None, err)
  else
  if negb isProfitable then ret (None, None, err)     (* return nil, nil, err *)
  else
  let proverID := prover_ID env in
  let proof := {| Proof.BatchNumber := Batch.BatchNumber btv;
                  Proof.BatchNumberFinal := Batch.BatchNumber btv;
                  Proof.Payload := "";
                  Proof.InputProver := "";
                  Proof.ProofID := None;
                  Proof.Prover := Some proverID;
                  Proof.Generating := true |} in
  (* avoid other prover to process the same batch *)
  do err <- State_AddGeneratedProof proof None;
  if notNil err then ret (None, None, err)
  else ret (Some btv, Some proof, None).

Definition buildInputProver (batchToVerify : Batch.t)
    : M World (option InputProver * option error) :=
  do r <- ask (fun e t => GetBatchByNumber e t (uint64_sub (Batch.BatchNumber batchToVerify) 1));
  let '(previousBatch, err) := r in
  if notNil err && negb (err_is_exactly err ErrStateNotSynchronized) then
    ret (None, Some (ErrMsg "Failed to get previous batch"))
  else
  do r <- ask GetPublicAddress;
  let '(pubAddr, err) := r in
  if notNil err then ret (None, Errorf_w "failed to get public address, err:" err)
  else
  do pb <- deref previousBatch;
  ret (Some {| IP_PublicInputs :=
                 {| OldStateRoot := Batch.StateRoot pb;
                    OldAccInputHash := Batch.AccInputHash pb;
                    OldBatchNum := Batch.BatchNumber pb;
                    ChainId := ChainID cfg;
                    PI_BatchL2Data := Batch.BatchL2Data batchToVerify;
                    PI_GlobalExitRoot := Batch.GlobalExitRoot batchToVerify;
                    EthTimestamp := Batch.Timestamp batchToVerify mod uint64_modulus;
                    SequencerAddr := Batch.Coinbase batchToVerify;
                    AggregatorAddr := pubAddr |};
               Db := [];
               ContractsBytecode := [] |}, None).

(** The deferred closure of [tryGenerateBatchProof]; its variable is [err]. *)
Definition tryGenerateBatchProof_defer (proof : option Proof.t)
    (err : option error) : M World unit :=
  if notNil err then
    do p <- deref proof;
    do _err2 <- State_DeleteGeneratedProofs (Proof.BatchNumber p) (Proof.BatchNumberFinal p) None;
    ret tt
  else ret tt.

Definition tryGenerateBatchProof (fuel : nat) : M World (bool * option error) :=
  do r <- getAndLockBatchToProve;
  let '(batchToProve, proof, err0) := r in
  if errors_Is err0 ErrNotFound then ret (false, None)
  else if notNil err0 then ret (false, err0)
  else
  do r <- run_frame None (
    do _ <- defer (tryGenerateBatchProof_defer proof);
    do btp <- lift (deref batchToProve);       (* batchToProve.BatchNumber, in the log call *)
    do r <- lift (buildInputProver btp);
    let '(inputProver, err) := r in
    do _ <- set_vars err;
    if notNil err then ret (false, Errorf_w "Failed to build input prover," err)
    else
    do ip <- lift (deref inputProver);
    do r <- lift (ask (fun e t => json_Marshal_input e t ip));
    let '(b, err) := r in
    do _ <- set_vars err;
    if notNil err then ret (false, Errorf_w "Failed to serialize input prover," err)
    else
    do p <- lift (deref proof);
    let p := Proof.setInputProver b p in
    do r <- lift (ask (fun e t => BatchProof e t ip));
    let '(genProofID, err) := r in
    do _ <- set_vars err;
    if notNil err then ret (false, Errorf_w "Failed to get batch proof id" err)
    else
    let p := Proof.setProofID genProofID p in
    do id <- lift (deref (Proof.ProofID p));
    do r <- lift (ask (fun e t => WaitRecursiveProof e t id));
    let '(resGetProof, err) := r in
    do _ <- set_vars err;
    if notNil err then ret (false, Errorf_w "Failed to get proof from prover" err)
    else
    let p := Proof.setPayload resGetProof p in
    do r <- lift (tryBuildFinalProof fuel (Some p));
    let '(proof', (finalProofBuilt, err)) := r in
    do _ <- set_vars err;
    if notNil err then ret (false, Errorf_w "Failed trying to build final proof" err)
    else
    if negb finalProofBuilt then
      let p := default p proof' in             (* the same pointer as [proof] *)
      do err <- lift (State_UpdateGeneratedProof (Proof.setGenerating false p) None);
      do _ <- set_vars err;
      if notNil err then ret (false, err)
      else ret (true, None)
    else ret (true, None));
  ret (snd r).

(** ** The final-proof dispatcher *)

(** The inputs that [sendFinalProof] hands to the transaction manager. *)
Definition finalProofInputs (msg : finalProofMsg) (finalBatch : Batch.t) : FinalProofInputs :=
  {| FPI_FinalProof := finalProof msg;
     FPI_NewLocalExitRoot := Batch.LocalExitRoot finalBatch;
     FPI_NewStateRoot := Batch.StateRoot finalBatch |}.

(** What one iteration of [sendFinalProof] does with the message it
    received (every path of the Go loop body ends in the next iteration). *)
Definition sendFinalProof_handle (fuel : nat) (msg : finalProofMsg) : M World unit :=
  do proof <- deref (recursiveProof msg);
  do r <- ask (fun e t => GetBatchByNumber e t (Proof.BatchNumberFinal proof));
  let '(finalBatch, err) := r in
  if notNil err then enableProofVerification       (* then [continue] *)
  else
  do fb <- deref finalBatch;
  let inputs := finalProofInputs msg fb in
  let lastVerified := uint64_sub (Proof.BatchNumber proof) 1 in
  do _ <- emit (EvVerifyBatches lastVerified (Proof.BatchNumberFinal proof) inputs);
  do r <- ask (fun e t => VerifyBatches e t lastVerified (Proof.BatchNumberFinal proof) inputs);
  let '(tx, err) := r in
  if notNil err then
    (* unlock the underlying proof (generating=false) *)
    do _err <- State_UpdateGeneratedProof (Proof.setGenerating false proof) None;
    enableProofVerification                        (* then [continue] *)
  else
  do _hash <- deref tx;                            (* tx.Hash(), in the log call *)
  (* wait for the synchronizer to catch up the verified batches *)
  do _ <- waitSynced fuel;
  do _ <- resetVerifyProofTime;
  (* network is synced with the final proof, the recursive proofs can go *)
  do _err <- State_DeleteGeneratedProofs (Proof.BatchNumber proof) (Proof.BatchNumberFinal proof) None;
  ret tt.

(** [sendFinalProof]: the loop, over the messages that arrive on the
    channel.  Each iteration first selects between the cancellation of
    [a.ctx] and the next message. *)
Fixpoint sendFinalProof (fuel : nat) (msgs : list finalProofMsg) : M World unit :=
  match msgs with
  | [] => ret tt
  | msg :: rest =>
      do done <- ask ctx_Done;
      if done then ret tt
      else
        do _ <- sendFinalProof_handle fuel msg;
        sendFinalProof fuel rest
  end.

End Aggregator.

(** ** The transaction of a monitored tx *)

(** [monitoredTx], as far as [Tx] reads it.  [to] is an address pointer,
    [value] and [gasPrice] are big-integer pointers. *)
Record monitoredTx : Type := {
  mtx_id : string;
  mtx_from : string;
  mtx_to : option string;
  mtx_nonce : Z;
  mtx_value : option Z;
  mtx_data : option bytes;
  mtx_gas : Z;
  mtx_gasPrice : option Z
}.

(** go-ethereum's [types.LegacyTx]; a field the literal leaves out has Go's
    zero value. *)
Record LegacyTx : Type := {
  Nonce : Z;
  GasPrice : option Z;
  Gas : Z;
  To : option string;
  Value : option Z;
  Data : option bytes;
  Sig_V : option Z;
  Sig_R : option Z;
  Sig_S : option Z
}.

(** go-ethereum's [LegacyTx.copy]: a deep copy of the transaction data.  The
    nonce and the gas are copied, the recipient and the data keep their
    content (a nil recipient and a nil data stay nil), and the big-integer
    fields of the copy are allocated first ([new(big.Int)], which is zero)
    and set only from a field that is not nil: in the copy none of them is
    nil, and a nil one has become zero. *)
Definition LegacyTx_copy (tx : LegacyTx) : LegacyTx :=
  {| Nonce := Nonce tx;
     To := To tx;                                   (* copyAddressPtr(tx.To) *)
     Data := Data tx;                               (* common.CopyBytes(tx.Data) *)
     Gas := Gas tx;
     Value := Some (default 0 (Value tx));
     GasPrice := Some (default 0 (GasPrice tx));
     Sig_V := Some (default 0 (Sig_V tx));
     Sig_R := Some (default 0 (Sig_R tx));
     Sig_S := Some (default 0 (Sig_S tx)) |}.

(** go-ethereum's [types.Transaction], as far as its transaction data
    ([tx.inner]) goes. *)
Inductive Transaction : Type :=
| mkTransaction (inner : LegacyTx).

Definition Tx_inner (tx : Transaction) : LegacyTx :=
  match tx with
  | mkTransaction inner => inner
  end.

(** [types.NewTx(inner)]: the transaction holds a copy of the data it is
    given ([tx.setDecoded(inner.copy(), 0)]). *)
Definition NewTx (inner : LegacyTx) : Transaction :=
  mkTransaction (LegacyTx_copy inner).

Definition monitoredTx_Tx (mTx : monitoredTx) : Transaction :=
  NewTx {| Nonce := mtx_nonce mTx;
           Value := mtx_value mTx;
           Data := mtx_data mTx;
           Gas := mtx_gas mTx;
           GasPrice := mtx_gasPrice mTx;
           To := None;
           Sig_V := None;
           Sig_R := None;
           Sig_S := None |}.

(** ** Sequences of gate operations *)

(** The gate operations that do not move the deadline. *)
Inductive GateOp : Type :=
| OpCanVerifyProof
| OpEnableProofVerification.

(** Runs the operations in order and collects what the calls of
    [canVerifyProof] returned. *)
Fixpoint run_gate_ops (env : Env) (ops : list GateOp) : M World (list bool) :=
  match ops with
  | [] => ret []
  | OpCanVerifyProof :: ops' =>
      do b <- canVerifyProof env;
      do bs <- run_gate_ops env ops';
      ret (b :: bs)
  | OpEnableProofVerification :: ops' =>
      do _ <- enableProofVerification;
      run_gate_ops env ops'
  end.

(** How many calls of [canVerifyProof] a sequence holds. *)
Fixpoint canVerifyProof_calls (ops : list GateOp) : nat :=
  match ops with
  | [] => 0
  | OpCanVerifyProof :: ops' => S (canVerifyProof_calls ops')
  | OpEnableProofVerification :: ops' => canVerifyProof_calls ops'
  end.

(** The polls that a finished wait for the synchroniser leaves in the trace:
    [k] polls that found the state behind, each followed by a sleep, and the
    poll that found it synced. *)
Definition sync_polls (cfg : Config) (k : nat) : list Event :=
  concat (repeat [EvIsSynced false; EvSleep (RetryTime cfg)] k) ++ [EvIsSynced true].

(** The mock prover's roots, as [buildFinalProof] recognises them. *)
Definition is_mocked (pub : PublicInputsExtended) : Prop :=
  string_of_bytes (NewStateRoot pub) = mockedStateRoot /\
  string_of_bytes (NewLocalExitRoot pub) = mockedLocalExitRoot.

(** The world [n] interaction points later, with the events [evs] appended
    to the trace and nothing else changed. *)
Definition advance (n : nat) (evs : list Event) (w : World) : World :=
  {| TimeSendFinalProof := TimeSendFinalProof w; verifyingProof := verifyingProof w;
     proofs := proofs w; pending := pending w;
     tick := (n + tick w)%nat; trace := trace w ++ evs |}.

(** ** Concrete scenarios *)

Module Scenario.

Definition cfg : Config :=
  {| RetryTime := 5; VerifyProofInterval := 60; ChainID := 1001 |}.

Definition batch (n : Z) : Batch.t :=
  {| Batch.BatchNumber := n;
     Batch.Coinbase := "0xc0";
     Batch.BatchL2Data := [];
     Batch.StateRoot := list_byte_of_string "state-root-of-batch";
     Batch.LocalExitRoot := list_byte_of_string "exit-root-of-batch";
     Batch.AccInputHash := [];
     Batch.Timestamp := 1700000000;
     Batch.GlobalExitRoot := [] |}.

Definition proof (first last : Z) (generating : bool) : Proof.t :=
  {| Proof.BatchNumber := first;
     Proof.BatchNumberFinal := last;
     Proof.Payload := "recursive";
     Proof.InputProver := "";
     Proof.ProofID := Some "id";
     Proof.Prover := Some "prover-1";
     Proof.Generating := generating |}.

Definition final : FinalProof :=
  {| FinalProof_Proof := "final";
     Public := Some {| NewStateRoot := list_byte_of_string "0xaa"; NewAccInputHash := [];
                       NewLocalExitRoot := list_byte_of_string "0xbb"; NewBatchNum := 12 |} |}.

(** What varies between the scenarios; everything else answers without
    error. *)
Record knobs : Type := {
  now : nat -> Z;
  lastVerifiedBatchNum : nat -> Z;
  lastVerifiedEthBatchNum : nat -> Z;
  batchByNumber_err : option error;
  verifyBatches_err : option error;
  proofReadyToVerify : option Proof.t * option error;
  proofsToAggregate : option Proof.t * option Proof.t * option error;
  finalProofRequest_err : option error;
  profitable : bool;
  completeSequences : bool;
  proverFinalProof : FinalProof
}.

Definition env (k : knobs) : Env :=
  {| time_Now := now k;
     ctx_Done := fun _ => false;
     GetLastVerifiedBatch := fun t => (Some (VerifiedBatch.mk (lastVerifiedBatchNum k t)), None);
     GetVirtualBatchToProve := fun _ lv => (Some (batch (lv + 1)), None);
     GetBatchByNumber := fun _ n =>
       match batchByNumber_err k with
       | Some e => (None, Some e)
       | None => (Some (batch n), None)
       end;
     GetProofReadyToVerify := fun _ _ => proofReadyToVerify k;
     GetProofsToAggregate := fun _ => proofsToAggregate k;
     CheckProofContainsCompleteSequences := fun _ _ => (completeSequences k, None);
     AddGeneratedProof_err := fun _ => None;
     UpdateGeneratedProof_err := fun _ => None;
     DeleteGeneratedProofs_err := fun _ => None;
     BeginStateTransaction_err := fun _ => None;
     Commit_err := fun _ => None;
     GetPublicAddress := fun _ => ("0xa99", None);
     GetLatestVerifiedBatchNum := fun t => (lastVerifiedEthBatchNum k t, None);
     VerifyBatches := fun _ _ _ _ =>
       match verifyBatches_err k with
       | Some e => (None, Some e)
       | None => (Some "0x7a", None)
       end;
     IsProfitable := fun _ => (profitable k, None);
     prover_ID := "prover-1";
     BatchProof := fun _ _ => (Some "batch-proof-id", None);
     AggregatedProof := fun _ _ _ => (Some "aggregated-proof-id", None);
     FinalProof_req := fun _ _ _ =>
       match finalProofRequest_err k with
       | Some e => (None, Some e)
       | None => (Some "final-proof-id", None)
       end;
     WaitRecursiveProof := fun _ _ => ("aggregated", None);
     WaitFinalProof := fun _ _ => (Some (proverFinalProof k), None);
     json_Marshal_input := fun _ _ => ("{input}", None);
     json_Marshal_pair := fun _ _ _ => ("{pair}", None) |}.

(** The quiet scenario: the clock stands at 100, the state is synced with
    L1 (last verified batch 10), nothing fails, nothing is ready. *)
Definition quiet : knobs :=
  {| now := fun _ => 100;
     lastVerifiedBatchNum := fun _ => 10;
     lastVerifiedEthBatchNum := fun _ => 10;
     batchByNumber_err := None;
     verifyBatches_err := None;
     proofReadyToVerify := (None, Some ErrNotFound);
     proofsToAggregate := (None, None, Some ErrNotFound);
     finalProofRequest_err := None;
     profitable := true;
     completeSequences := true;
     proverFinalProof := final |}.

(** A world whose gate has the deadline [deadline] and is not taken, with the
    proof rows [rows]. *)
Definition world (deadline : Z) (rows : list Proof.t) : World :=
  {| TimeSendFinalProof := deadline;
     verifyingProof := false;
     proofs := list_to_map (map (fun p => (Proof.key p, p)) rows);
     pending := None;
     tick := 0;
     trace := [] |}.

(** L1 has verified up to batch 12; the state still has batch 10 as its last
    verified batch at the first poll of the dispatcher and has caught up at
    the second. *)
Definition late_sync : knobs :=
  {| now := fun _ => 100;
     lastVerifiedBatchNum := fun t => if (t <=? 3)%nat then 10 else 12;
     lastVerifiedEthBatchNum := fun _ => 12;
     batchByNumber_err := None;
     verifyBatches_err := None;
     proofReadyToVerify := (None, Some ErrNotFound);
     proofsToAggregate := (None, None, Some ErrNotFound);
     finalProofRequest_err := None;
     profitable := true;
     completeSequences := true;
     proverFinalProof := final |}.

(** The transaction manager refuses the submission. *)
Definition l1_failure : knobs :=
  {| now := fun _ => 100;
     lastVerifiedBatchNum := fun _ => 10;
     lastVerifiedEthBatchNum := fun _ => 10;
     batchByNumber_err := None;
     verifyBatches_err := Some (ErrMsg "nonce too low");
     proofReadyToVerify := (None, Some ErrNotFound);
     proofsToAggregate := (None, None, Some ErrNotFound);
     finalProofRequest_err := None;
     profitable := true;
     completeSequences := true;
     proverFinalProof := final |}.

(** The final batch row cannot be read. *)
Definition batch_unreadable : knobs :=
  {| now := fun _ => 100;
     lastVerifiedBatchNum := fun _ => 10;
     lastVerifiedEthBatchNum := fun _ => 10;
     batchByNumber_err := Some (ErrMsg "connection reset");
     verifyBatches_err := None;
     proofReadyToVerify := (None, Some ErrNotFound);
     proofsToAggregate := (None, None, Some ErrNotFound);
     finalProofRequest_err := None;
     profitable := true;
     completeSequences := true;
     proverFinalProof := final |}.

(** Proofs 11-11 and 12-12 wait to be aggregated, the gate is open, and the
    prover refuses the request for a final proof. *)
Definition final_proof_fails : knobs :=
  {| now := fun _ => 100;
     lastVerifiedBatchNum := fun _ => 10;
     lastVerifiedEthBatchNum := fun _ => 10;
     batchByNumber_err := None;
     verifyBatches_err := None;
     proofReadyToVerify := (None, Some ErrNotFound);
     proofsToAggregate := (Some (proof 11 11 false), Some (proof 12 12 false), None);
     finalProofRequest_err := Some (ErrMsg "prover unavailable");
     profitable := true;
     completeSequences := true;
     proverFinalProof := final |}.

(** The final proof of the mock prover, which carries the two sentinel
    roots. *)
Definition mocked_final : FinalProof :=
  {| FinalProof_Proof := "final";
     Public := Some {| NewStateRoot := list_byte_of_string mockedStateRoot;
                       NewAccInputHash := [];
                       NewLocalExitRoot := list_byte_of_string mockedLocalExitRoot;
                       NewBatchNum := 12 |} |}.

Definition mock_prover : knobs :=
  {| now := fun _ => 100;
     lastVerifiedBatchNum := fun _ => 10;
     lastVerifiedEthBatchNum := fun _ => 10;
     batchByNumber_err := None;
     verifyBatches_err := None;
     proofReadyToVerify := (None, Some ErrNotFound);
     proofsToAggregate := (None, None, Some ErrNotFound);
     finalProofRequest_err := None;
     profitable := true;
     completeSequences := true;
     proverFinalProof := mocked_final |}.

(** The profitability policy rejects the batch. *)
Definition unprofitable : knobs :=
  {| now := fun _ => 100;
     lastVerifiedBatchNum := fun _ => 10;
     lastVerifiedEthBatchNum := fun _ => 10;
     batchByNumber_err := None;
     verifyBatches_err := None;
     proofReadyToVerify := (None, Some ErrNotFound);
     proofsToAggregate := (None, None, Some ErrNotFound);
     finalProofRequest_err := None;
     profitable := false;
     completeSequences := true;
     proverFinalProof := final |}.

Definition msg (first last : Z) : finalProofMsg :=
  {| proverID := "prover-1";
     recursiveProof := Some (proof first last true);
     finalProof := Some final |}.

End Scenario.

(** ** Outcomes and what a run leaves unchanged *)

(** [wp m s Q P]: the run of [m] from [s] ends in a state that satisfies [Q]
    when it returns and [P] when it panics. *)
Definition wp {S A : Type} (m : M S A) (s : S) (Q : A -> S -> Prop) (P : S -> Prop) : Prop :=
  match m s with
  | Ret a s' => Q a s'
  | Panic s' => P s'
  | OutOfFuel => True
  end.

(** [preserves R m]: however [m] ends, the world it leaves is related by [R]
    to the world it started from. *)
Definition preserves {A : Type} (R : World -> World -> Prop) (m : M World A) : Prop :=
  forall w, wp m w (fun _ w' => R w w') (fun w' => R w w').

(** The same for a function body, whose deferred closures must preserve [R]
    as well. *)
Definition deferred_preserve {V : Type} (R : World -> World -> Prop)
    (f : Frame World V) : Prop :=
  Forall (fun d => forall v, preserves R (d v)) (deferred f).

Definition preservesF {V A : Type} (R : World -> World -> Prop) (m : F World V A) : Prop :=
  forall fw,
    deferred_preserve R (fst fw) ->
    wp m fw (fun _ fw' => R (snd fw) (snd fw') /\ deferred_preserve R (fst fw'))
            (fun fw' => R (snd fw) (snd fw') /\ deferred_preserve R (fst fw')).

(** A relation that no read of the environment and no event breaks. *)
Record stable (R : World -> World -> Prop) : Prop := {
  stable_refl : forall w, R w w;
  stable_trans : forall w1 w2 w3, R w1 w2 -> R w2 w3 -> R w1 w3;
  stable_tick : forall w, R w (next_tick w);
  stable_event : forall e w, R w (add_event e w)
}.

(** A relation that taking or releasing the gate does not break. *)
Record stable_under_gate (R : World -> World -> Prop) : Prop := {
  stable_verifying : forall b w, R w (set_verifyingProof b w)
}.

(** A relation that no write to the store breaks. *)
Record stable_under_writes (R : World -> World -> Prop) : Prop := {
  stable_proofs : forall m w, R w (set_proofs m w);
  stable_pending : forall m w, R w (set_pending m w)
}.

(** The proof table and the open transaction are the same. *)
Definition same_table (w w' : World) : Prop :=
  proofs w' = proofs w /\ pending w' = pending w.

(** The gate's deadline is the same. *)
Definition same_deadline (w w' : World) : Prop :=
  TimeSendFinalProof w' = TimeSendFinalProof w.

(** The gate is the same: deadline and [verifyingProof]. *)
Definition same_gate (w w' : World) : Prop :=
  TimeSendFinalProof w' = TimeSendFinalProof w /\ verifyingProof w' = verifyingProof w.

(** [ends_with o P]: the outcome [o], a return or a panic, left a world that
    satisfies [P]. *)
Definition ends_with {A : Type} (o : outcome World A) (P : World -> Prop) : Prop :=
  match o with
  | Ret _ w' => P w'
  | Panic w' => P w'
  | OutOfFuel => True
  end.

(** ** The scheduler loop *)

Section Channel.

Variable cfg : Config.
Variable env : Env.

(** What the prover session answers to [IsIdle], and whether the stream's
    context is done, at each interaction point. *)
Variable prover_IsIdle : nat -> bool.
Variable stream_Done : nat -> bool.

(** The [default] branch of the loop of [Channel]: one pass of the
    scheduler.  The errors of the operations are logged and dropped. *)
Definition Channel_pass (fuel : nat) : M World unit :=
  do idle <- ask env (fun _ t => prover_IsIdle t);
  if negb idle then time_Sleep (RetryTime cfg)            (* then [continue] *)
  else
  do _r <- tryBuildFinalProof cfg env fuel None;
  do r <- tryAggregateProofs cfg env fuel;
  let '(proofGenerated, _err) := r in
  do r <- (if negb proofGenerated then tryGenerateBatchProof cfg env fuel
           else ret (proofGenerated, _err));
  let '(proofGenerated, _err) := r in
  if negb proofGenerated then time_Sleep (RetryTime cfg)
  else ret tt.

(** The loop of [Channel], for at most [n] passes: it returns the error of
    the context that is done first, the aggregator's context being looked at
    first. *)
Fixpoint Channel_loop (fuel : nat) (n : nat) : M World (option error) :=
  match n with
  | O => fun _ => OutOfFuel
  | S n' =>
      do serverDone <- ask env ctx_Done;
      if serverDone then ret (Some ErrCanceled)           (* return a.ctx.Err() *)
      else
      do clientDone <- ask env (fun _ t => stream_Done t);
      if clientDone then ret (Some ErrCanceled)           (* return ctx.Err() *)
      else
      do _ <- Channel_pass fuel;
      Channel_loop fuel n'
  end.

End Channel.

(** ** The history of a monitored tx *)

(** [ErrAlreadyExists] is declared elsewhere in the package. *)
Definition ErrAlreadyExists : error := ErrMsg "already exists".

(** [monitoredTx.AddHistory].  The receiver is a copy of the struct, but its
    [history] is a Go map, which the copy shares: the state is that map
    ([None] is the nil map, on which a lookup finds nothing and an assignment
    panics).  [txHash] is [tx.Hash()]. *)
Definition AddHistory (txHash : string) : M (option (gmap string bool)) (option error) :=
  fun history =>
    match history with
    | None => Panic history                  (* assignment to entry in nil map *)
    | Some h =>
        match h !! txHash with
        | Some _ => Ret (Some ErrAlreadyExists) history
        | None => Ret None (Some (<[txHash := true]> h))
        end
    end.

(** [monitoredTx.historyStringSlice]: one string per key of [history].  Go
    leaves the order of a [range] over a map unspecified; the order here is
    that of [map_to_list], and nothing below depends on it. *)
Definition historyStringSlice (history : option (gmap string bool)) : list string :=
  match history with
  | None => []
  | Some h => fst <$> map_to_list h
  end.

(** ** Enqueued transactions *)

(** [enqueuedSequencesTx] and [enqueuedVerifyBatchesTx] renew their inner
    transaction in the same way; they differ in the two calls of the
    [etherman] they make.  [estimateGas] is [EstimateGasSequenceBatches]
    (resp. [EstimateGasForVerifyBatches]) applied to the fields of the
    struct, and [rebuild gas gasPrice nonce noSend] is [SequenceBatches]
    (resp. [VerifyBatches]) applied to them.  The state is the inner
    transaction pointer [etx.tx]. *)
Section EnqueuedTx.

Variable rebuild : Z -> option Z -> option Z -> bool -> option Transaction * option error.

(** [etx.renewGas] *)
Definition renewGas : M (option Transaction) (option error) :=
  do oldTxPtr <- gets (fun tx => tx);
  do oldTx <- deref oldTxPtr;
  let oldNonce := Some (Nonce (Tx_inner oldTx)) in
  let '(tx, err) := rebuild (Gas (Tx_inner oldTx)) None oldNonce true in
  if notNil err then ret err
  else
  do _ <- modify (fun _ => tx);
  ret None.

(** [enqueuedSequencesTx.RenewTxIfNeeded]: the estimate is a transaction,
    whose gas is compared. *)
Definition RenewTxIfNeeded_sequences
    (estimateGas : option Transaction * option error) : M (option Transaction) (option error) :=
  let '(tx, err) := estimateGas in
  if notNil err then ret err
  else
  do est <- deref tx;
  do cur <- gets (fun tx => tx);
  do cur <- deref cur;
  if Gas (Tx_inner cur) <? Gas (Tx_inner est) then
    do err <- renewGas;
    if notNil err then ret err else ret None
  else ret None.

(** [enqueuedVerifyBatchesTx.RenewTxIfNeeded]: the estimate is a number. *)
Definition RenewTxIfNeeded_verifyBatches
    (estimateGas : Z * option error) : M (option Transaction) (option error) :=
  let '(estimatedGas, err) := estimateGas in
  if notNil err then ret err
  else
  do cur <- gets (fun tx => tx);
  do cur <- deref cur;
  if Gas (Tx_inner cur) <? estimatedGas then
    do err <- renewGas;
    if notNil err then ret err else ret None
  else ret None.

End EnqueuedTx.

(** ** More scenarios *)

Module Scenario2.

(** The environment [e], with the aggregator's context cancelled. *)
Definition cancelled (e : Env) : Env :=
  {| time_Now := time_Now e;
     ctx_Done := fun _ => true;
     GetLastVerifiedBatch := GetLastVerifiedBatch e;
     GetVirtualBatchToProve := GetVirtualBatchToProve e;
     GetBatchByNumber := GetBatchByNumber e;
     GetProofReadyToVerify := GetProofReadyToVerify e;
     GetProofsToAggregate := GetProofsToAggregate e;
     CheckProofContainsCompleteSequences := CheckProofContainsCompleteSequences e;
     AddGeneratedProof_err := AddGeneratedProof_err e;
     UpdateGeneratedProof_err := UpdateGeneratedProof_err e;
     DeleteGeneratedProofs_err := DeleteGeneratedProofs_err e;
     BeginStateTransaction_err := BeginStateTransaction_err e;
     Commit_err := Commit_err e;
     GetPublicAddress := GetPublicAddress e;
     GetLatestVerifiedBatchNum := GetLatestVerifiedBatchNum e;
     VerifyBatches := VerifyBatches e;
     IsProfitable := IsProfitable e;
     prover_ID := prover_ID e;
     BatchProof := BatchProof e;
     AggregatedProof := AggregatedProof e;
     FinalProof_req := FinalProof_req e;
     WaitRecursiveProof := WaitRecursiveProof e;
     WaitFinalProof := WaitFinalProof e;
     json_Marshal_input := json_Marshal_input e;
     json_Marshal_pair := json_Marshal_pair e |}.

(** The environment [e], with a prover that refuses every aggregation
    request. *)
Definition no_aggregation (e : Env) : Env :=
  {| time_Now := time_Now e;
     ctx_Done := ctx_Done e;
     GetLastVerifiedBatch := GetLastVerifiedBatch e;
     GetVirtualBatchToProve := GetVirtualBatchToProve e;
     GetBatchByNumber := GetBatchByNumber e;
     GetProofReadyToVerify := GetProofReadyToVerify e;
     GetProofsToAggregate := GetProofsToAggregate e;
     CheckProofContainsCompleteSequences := CheckProofContainsCompleteSequences e;
     AddGeneratedProof_err := AddGeneratedProof_err e;
     UpdateGeneratedProof_err := UpdateGeneratedProof_err e;
     DeleteGeneratedProofs_err := DeleteGeneratedProofs_err e;
     BeginStateTransaction_err := BeginStateTransaction_err e;
     Commit_err := Commit_err e;
     GetPublicAddress := GetPublicAddress e;
     GetLatestVerifiedBatchNum := GetLatestVerifiedBatchNum e;
     VerifyBatches := VerifyBatches e;
     IsProfitable := IsProfitable e;
     prover_ID := prover_ID e;
     BatchProof := BatchProof e;
     AggregatedProof := fun _ _ _ => (None, Some (ErrMsg "prover busy"));
     FinalProof_req := FinalProof_req e;
     WaitRecursiveProof := WaitRecursiveProof e;
     WaitFinalProof := WaitFinalProof e;
     json_Marshal_input := json_Marshal_input e;
     json_Marshal_pair := json_Marshal_pair e |}.

(** Proofs 11-11 and 12-12 wait to be aggregated and nothing fails. *)
Definition two_proofs : Scenario.knobs :=
  {| Scenario.now := fun _ => 100;
     Scenario.lastVerifiedBatchNum := fun _ => 10;
     Scenario.lastVerifiedEthBatchNum := fun _ => 10;
     Scenario.batchByNumber_err := None;
     Scenario.verifyBatches_err := None;
     Scenario.proofReadyToVerify := (None, Some ErrNotFound);
     Scenario.proofsToAggregate :=
       (Some (Scenario.proof 11 11 false), Some (Scenario.proof 12 12 false), None);
     Scenario.finalProofRequest_err := None;
     Scenario.profitable := true;
     Scenario.completeSequences := true;
     Scenario.proverFinalProof := Scenario.final |}.

Definition tx (nonce gas : Z) : Transaction :=
  NewTx {| Nonce := nonce; GasPrice := Some 7; Gas := gas; To := Some "0xrollup";
           Value := None; Data := None; Sig_V := None; Sig_R := None; Sig_S := None |}.

End Scenario2.

(** Batch 11 waits for its proof and the store has no row for batch 10: it
    answers [ErrStateNotSynchronized] to [GetBatchByNumber]. *)
Definition previous_batch_missing : Scenario.knobs :=
  {| Scenario.now := fun _ => 100;
     Scenario.lastVerifiedBatchNum := fun _ => 10;
     Scenario.lastVerifiedEthBatchNum := fun _ => 10;
     Scenario.batchByNumber_err := Some ErrStateNotSynchronized;
     Scenario.verifyBatches_err := None;
     Scenario.proofReadyToVerify := (None, Some ErrNotFound);
     Scenario.proofsToAggregate := (None, None, Some ErrNotFound);
     Scenario.finalProofRequest_err := None;
     Scenario.profitable := true;
     Scenario.completeSequences := true;
     Scenario.proverFinalProof := Scenario.final |}.

(** ** The store while the gate is held *)

(** What [GetProofsToAggregate] selects at [w], when it selects: two rows of
    the proof table that are not being generated, the second neither
    starting nor ending before the first. *)
Definition selects_rows (env : Env) (w : World) : Prop :=
  forall p1 p2,
    GetProofsToAggregate env (tick w) = (Some p1, Some p2, None) ->
    proofs w !! Proof.key p1 = Some p1 /\ proofs w !! Proof.key p2 = Some p2 /\
    Proof.Generating p1 = false /\ Proof.Generating p2 = false /\
    Proof.BatchNumber p1 <= Proof.BatchNumber p2 /\
    Proof.BatchNumberFinal p1 <= Proof.BatchNumberFinal p2.

(** The store as an operation finds it while the gate is held: the proof
    rows, the working copy of the open transaction, and [verifyingProof]
    set. *)
Definition held_with (tbl : gmap (Z * Z) Proof.t) (pend : option (gmap (Z * Z) Proof.t))
    (w : World) : Prop :=
  proofs w = tbl /\ pending w = pend /\ verifyingProof w = true.

(** The store's updates and transactions do not fail. *)
Definition store_works (env : Env) : Prop :=
  (forall t, UpdateGeneratedProof_err env t = None) /\
  (forall t, BeginStateTransaction_err env t = None) /\
  (forall t, Commit_err env t = None).

(** ** Proof steps *)

Create HintDb preserves.


(** Unfolds the monad's operations, so that a run can be followed call by
    call with the environment's answers. *)
Ltac unfold_monad :=
  repeat (progress unfold assign_err, assign_proof, store_write, time_Sleep, emit,
            bind, lift, ret, ask, gets, modify, defer, get_vars, set_vars,
            panic, deref, run_frame).

Ltac unfold_monad_in H :=
  repeat (progress unfold assign_err, assign_proof, store_write, time_Sleep, emit,
            bind, lift, ret, ask, gets, modify, defer, get_vars, set_vars,
            panic, deref, run_frame in H).

(** Case analysis on what a run, given as the hypothesis [H], read from the
    environment: the innermost scrutinee first. *)
Ltac destruct_inner t :=
  lazymatch t with
  | context [match ?y with _ => _ end] => destruct_inner y
  | _ => destruct t eqn:?
  end.

Ltac crunch H :=
  repeat (match type of H with
          | context [match ?x with _ => _ end] => destruct_inner x
          end; simpl in H; try discriminate H).

(** * Properties *)

(** ** Worlds *)

Lemma advance_0_nil w : advance 0 [] w = w.
Proof. destruct w; unfold advance; simpl. by rewrite app_nil_r. Qed.

Lemma advance_advance n1 n2 e1 e2 w :
  advance n2 e2 (advance n1 e1 w) = advance (n2 + n1) (e1 ++ e2) w.
Proof.
  unfold advance; simpl. f_equal; [lia | by rewrite app_assoc].
Qed.

Lemma next_tick_advance w : next_tick w = advance 1 [] w.
Proof. destruct w; unfold next_tick, advance; simpl. by rewrite app_nil_r. Qed.

Lemma add_event_advance e w : add_event e w = advance 0 [e] w.
Proof. reflexivity. Qed.

(** ** The gate *)

(** What [canVerifyProof] computes, in one equation: the answer of the clock
    is compared strictly. *)
Lemma canVerifyProof_eq env w :
  canVerifyProof env w =
    if (TimeSendFinalProof w <? time_Now env (tick w)) && negb (verifyingProof w)
    then Ret true (set_verifyingProof true (next_tick w))
    else Ret false (next_tick w).
Proof.
  unfold canVerifyProof, bind, ask, gets, modify, ret; simpl.
  destruct (TimeSendFinalProof w <? time_Now env (tick w)); simpl; [| reflexivity].
  destruct (verifyingProof w); reflexivity.
Qed.

Lemma canVerifyProof_true env w w' :
  canVerifyProof env w = Ret true w' ->
  w' = set_verifyingProof true (next_tick w) /\
  TimeSendFinalProof w < time_Now env (tick w) /\ verifyingProof w = false.
Proof.
  rewrite canVerifyProof_eq.
  destruct (Z.ltb_spec (TimeSendFinalProof w) (time_Now env (tick w))); simpl;
    [| discriminate].
  destruct (verifyingProof w); simpl; [discriminate |].
  intros [= <-]. auto.
Qed.

(** C4, as the code has it: [canVerifyProof] returns true, setting
    [verifyingProof], if and only if the deadline [TimeSendFinalProof] is
    strictly before the current time and [verifyingProof] is false; in every
    other case (the boundary instant [now = TimeSendFinalProof] included) it
    returns false and leaves both gate fields as they were. *)
Theorem canVerifyProof_strictly_after_deadline (env : Env) (w : World) :
  exists b w',
    canVerifyProof env w = Ret b w' /\
    (b = true <->
       TimeSendFinalProof w < time_Now env (tick w) /\ verifyingProof w = false) /\
    TimeSendFinalProof w' = TimeSendFinalProof w /\
    verifyingProof w' = (if b then true else verifyingProof w) /\
    proofs w' = proofs w.
Proof.
  rewrite canVerifyProof_eq.
  destruct (Z.ltb_spec (TimeSendFinalProof w) (time_Now env (tick w))) as [Hlt | Hge];
    destruct (verifyingProof w) eqn:Hv; simpl;
    eexists _, _; (split; [reflexivity |]); simpl; rewrite ?Hv;
    repeat split; try tauto; try discriminate; try (intros [? ?]; try discriminate; lia).
Qed.

(** C4, the boundary case of the claim refuted: at the instant
    [now = TimeSendFinalProof], with [verifyingProof] false, the call returns
    false and does not take the gate. *)
Lemma canVerifyProof_false_at_deadline :
  let env := Scenario.env Scenario.quiet in
  let w := Scenario.world 100 [] in
  time_Now env (tick w) = TimeSendFinalProof w /\
  verifyingProof w = false /\
  canVerifyProof env w = Ret false (next_tick w).
Proof. vm_compute. auto. Qed.

Lemma resetVerifyProofTime_eq cfg env w :
  resetVerifyProofTime cfg env w =
    Ret tt (set_TimeSendFinalProof (time_Now env (tick w) + VerifyProofInterval cfg)
              (next_tick (set_verifyingProof false (add_event EvResetVerifyProofTime w)))).
Proof. reflexivity. Qed.

Lemma enableProofVerification_eq w :
  enableProofVerification w =
    Ret tt (set_verifyingProof false (add_event EvEnableProofVerification w)).
Proof. reflexivity. Qed.

(** While the clock has not passed the deadline, no sequence of
    [canVerifyProof] and [enableProofVerification] calls opens the gate, and
    the deadline stays where it is. *)
Lemma run_gate_ops_before_deadline env ops : forall w,
  (forall t, (tick w <= t < tick w + length ops)%nat ->
             time_Now env t <= TimeSendFinalProof w) ->
  exists bs w',
    run_gate_ops env ops w = Ret bs w' /\
    Forall (fun b => b = false) bs /\
    length bs = canVerifyProof_calls ops /\
    TimeSendFinalProof w' = TimeSendFinalProof w.
Proof.
  induction ops as [| op ops IH]; intros w Hclock.
  - exists [], w. repeat split; constructor.
  - destruct op; simpl; unfold bind.
    + rewrite canVerifyProof_eq.
      assert (Hnow : time_Now env (tick w) <= TimeSendFinalProof w)
        by (apply Hclock; simpl; lia).
      destruct (Z.ltb_spec (TimeSendFinalProof w) (time_Now env (tick w))); [lia |].
      simpl.
      destruct (IH (next_tick w)) as (bs & w' & Hrun & Hall & Hlen & Hd).
      { intros t Ht. simpl in *. apply Hclock. simpl. lia. }
      rewrite Hrun. exists (false :: bs), w'.
      repeat split; [by constructor | | exact Hd].
      simpl. by rewrite Hlen.
    + rewrite enableProofVerification_eq.
      destruct (IH (set_verifyingProof false (add_event EvEnableProofVerification w)))
        as (bs & w' & Hrun & Hall & Hlen & Hd).
      { intros t Ht. simpl in *. apply Hclock. simpl. lia. }
      rewrite Hrun. exists bs, w'.
      repeat split; [exact Hall | exact Hlen | exact Hd].
Qed.

(** C7: after [resetVerifyProofTime], as long as the clock reads at most the
    time the reset read plus [VerifyProofInterval], every call of
    [canVerifyProof] returns false, whatever calls of [canVerifyProof] and
    [enableProofVerification] (the operations that do not move the deadline)
    come in between. *)
Theorem canVerifyProof_false_within_interval
    (cfg : Config) (env : Env) (ops : list GateOp) (w : World) :
  (forall t, (tick w < t <= tick w + length ops)%nat ->
             time_Now env t <= time_Now env (tick w) + VerifyProofInterval cfg) ->
  exists w1 bs w2,
    resetVerifyProofTime cfg env w = Ret tt w1 /\
    run_gate_ops env ops w1 = Ret bs w2 /\
    length bs = canVerifyProof_calls ops /\
    Forall (fun b => b = false) bs.
Proof.
  intros Hclock. rewrite resetVerifyProofTime_eq.
  eexists. 
  edestruct (run_gate_ops_before_deadline env ops) as (bs & w2 & Hrun & Hall & Hlen & _);
    [| exists bs, w2; split; [reflexivity |]; split; [exact Hrun |]; split; [exact Hlen | exact Hall]].
  intros t Ht. simpl in *. apply Hclock. lia.
Qed.

(** C7 on a run: reset at time 100 with an interval of 60, then three gate
    operations while the clock still reads 100. *)
Lemma canVerifyProof_false_within_interval_witness :
  exists w1 bs w2,
    resetVerifyProofTime Scenario.cfg (Scenario.env Scenario.quiet) (Scenario.world 0 []) = Ret tt w1 /\
    run_gate_ops (Scenario.env Scenario.quiet)
      [OpCanVerifyProof; OpEnableProofVerification; OpCanVerifyProof] w1 = Ret bs w2 /\
    length bs = canVerifyProof_calls
                  [OpCanVerifyProof; OpEnableProofVerification; OpCanVerifyProof] /\
    Forall (fun b => b = false) bs.
Proof.
  apply (canVerifyProof_false_within_interval Scenario.cfg (Scenario.env Scenario.quiet)).
  intros t Ht. simpl. lia.
Defined.

(** ** The transaction of a monitored tx *)

(** C10, as the code has it: [Tx] builds a legacy transaction whose nonce,
    data and gas are the monitored tx's, whose value and gas price are the
    monitored tx's when these are set and zero when they are nil (the
    transaction holds a copy of the literal, in which no big integer is nil),
    and whose recipient is nil: the transaction is the same whatever the
    monitored tx's [to], [id] and [from]. *)
Theorem monitoredTx_Tx_fields (mTx : monitoredTx) :
  let tx := Tx_inner (monitoredTx_Tx mTx) in
  Nonce tx = mtx_nonce mTx /\
  Value tx = Some (default 0 (mtx_value mTx)) /\
  (forall v, mtx_value mTx = Some v -> Value tx = mtx_value mTx) /\
  Data tx = mtx_data mTx /\
  Gas tx = mtx_gas mTx /\
  GasPrice tx = Some (default 0 (mtx_gasPrice mTx)) /\
  (forall p, mtx_gasPrice mTx = Some p -> GasPrice tx = mtx_gasPrice mTx) /\
  To tx = None /\
  (forall id from to,
      monitoredTx_Tx {| mtx_id := id; mtx_from := from; mtx_to := to;
                        mtx_nonce := mtx_nonce mTx; mtx_value := mtx_value mTx;
                        mtx_data := mtx_data mTx; mtx_gas := mtx_gas mTx;
                        mtx_gasPrice := mtx_gasPrice mTx |}
      = monitoredTx_Tx mTx).
Proof.
  destruct mTx as [id from to nonce value data gas gasPrice]; simpl.
  repeat split; try reflexivity.
  - intros v ->. reflexivity.
  - intros p ->. reflexivity.
Qed.

(** C10, the claim as stated refuted: for a monitored tx whose [value] and
    [gasPrice] are nil, the transaction's value and gas price are zero, not
    nil. *)
Lemma monitoredTx_Tx_nil_value :
  let mTx := {| mtx_id := "tx-1"; mtx_from := "0xsender"; mtx_to := Some "0xrollup";
                mtx_nonce := 3; mtx_value := None; mtx_data := None; mtx_gas := 21000;
                mtx_gasPrice := None |} in
  mtx_value mTx = None /\
  Value (Tx_inner (monitoredTx_Tx mTx)) = Some 0 /\
  mtx_gasPrice mTx = None /\
  GasPrice (Tx_inner (monitoredTx_Tx mTx)) = Some 0.
Proof. repeat split. Qed.

(** ** Waiting for the synchroniser *)

Lemma isSynced_advance env w :
  exists b n, isSynced env w = Ret b (advance n [] w).
Proof.
  unfold isSynced, bind, ask, ret.
  destruct (GetLastVerifiedBatch env (tick w)) as [lvb err].
  destruct (notNil err && negb (err_is_exactly err ErrNotFound)).
  { exists false, 1%nat. by rewrite next_tick_advance. }
  destruct lvb as [lvb |].
  2: { exists false, 1%nat. by rewrite next_tick_advance. }
  simpl.
  destruct (GetLatestVerifiedBatchNum env (S (tick w))) as [n err'].
  assert (Hw : next_tick (next_tick w) = advance 2 [] w)
    by (rewrite !next_tick_advance, advance_advance; reflexivity).
  destruct (notNil err'); [exists false, 2%nat; by rewrite Hw |].
  destruct (VerifiedBatch.BatchNumber lvb <? n);
    [exists false, 2%nat | exists true, 2%nat]; by rewrite Hw.
Qed.

Lemma sync_polls_S cfg k :
  sync_polls cfg (S k) = [EvIsSynced false; EvSleep (RetryTime cfg)] ++ sync_polls cfg k.
Proof. reflexivity. Qed.

(** A wait that finishes leaves [k] unsuccessful polls, each followed by a
    sleep of [RetryTime], and one successful poll in the trace, and changes
    neither the gate nor the proof table. *)
Lemma waitSynced_inv cfg env fuel : forall w u w',
  waitSynced cfg env fuel w = Ret u w' ->
  exists k n, w' = advance n (sync_polls cfg k) w.
Proof.
  induction fuel as [| fuel IH]; intros w u w' Hrun; [discriminate |].
  simpl in Hrun. unfold bind in Hrun.
  destruct (isSynced_advance env w) as (b & n & Hs). rewrite Hs in Hrun.
  unfold emit, modify, time_Sleep in Hrun. simpl in Hrun.
  destruct b.
  - injection Hrun as _ <-. exists 0%nat, n.
    rewrite add_event_advance, advance_advance. reflexivity.
  - apply IH in Hrun as (k & m & ->). exists (S k), (m + n)%nat.
    rewrite !add_event_advance, !advance_advance, sync_polls_S.
    unfold advance. simpl. f_equal. lia.
Qed.

(** More fuel does not change a wait that finished. *)
Lemma waitSynced_fuel_mono cfg env fuel : forall fuel' w u w',
  waitSynced cfg env fuel w = Ret u w' ->
  (fuel <= fuel')%nat ->
  waitSynced cfg env fuel' w = Ret u w'.
Proof.
  induction fuel as [| fuel IH]; intros fuel' w u w' Hrun Hle; [discriminate |].
  destruct fuel' as [| fuel']; [lia |].
  simpl in *. unfold bind in *.
  destruct (isSynced env w) as [b w1 | |]; try discriminate.
  destruct (emit (EvIsSynced b) w1) as [[] w2 | |]; try discriminate.
  destruct b; [exact Hrun |].
  destruct (time_Sleep (RetryTime cfg) w2) as [[] w3 | |]; try discriminate.
  apply IH; [exact Hrun | lia].
Qed.

Lemma validateEligibleFinalProof_advance env proof lv w r w' :
  validateEligibleFinalProof env proof lv w = Ret r w' ->
  exists n, w' = advance n [] w.
Proof.
  unfold validateEligibleFinalProof, bind, ask, ret.
  destruct (negb (Proof.BatchNumber proof =? uint64_add lv 1)).
  - intros [= _ <-]. exists 0%nat. by rewrite advance_0_nil.
  - destruct (CheckProofContainsCompleteSequences env (tick w) proof) as [b err].
    destruct (notNil err); [| destruct (negb b)];
      intros [= _ <-]; exists 1%nat; by rewrite next_tick_advance.
Qed.

(** ** [tryBuildFinalProof] *)

(** What [validateEligibleFinalProof] decides: the proof is eligible exactly
    when it starts right after the last verified batch and the store finds
    its sequences complete. *)
Lemma validateEligibleFinalProof_iff env proof lv w :
  exists r w',
    validateEligibleFinalProof env proof lv w = Ret r w' /\
    (r = (true, None) <->
       Proof.BatchNumber proof = uint64_add lv 1 /\
       CheckProofContainsCompleteSequences env (tick w) proof = (true, None)).
Proof.
  unfold validateEligibleFinalProof. unfold_monad.
  destruct (Z.eqb_spec (Proof.BatchNumber proof) (uint64_add lv 1)) as [Heq | Hne]; simpl.
  - destruct (CheckProofContainsCompleteSequences env (tick w) proof) as [b [e |]];
      [| destruct b]; simpl; eexists _, _; (split; [reflexivity |]).
    + split; [discriminate | intros [_ [=]]].
    + split; auto.
    + split; [discriminate | intros [_ [=]]].
  - eexists _, _. split; [reflexivity |]. split; [discriminate | tauto].
Qed.

(** C3: for a provided proof, [validateEligibleFinalProof] answers
    [(true, nil)] if and only if the proof's batch number is the last
    verified batch number plus one (in [uint64]) and the store's
    complete-sequences check answers true; and when the gate was taken, the
    wait for the synchroniser is over and the proof is found ineligible,
    [tryBuildFinalProof] returns [(false, nil)] with [verifyingProof] still
    true. *)
Theorem tryBuildFinalProof_provided_proof
    (cfg : Config) (env : Env) (fuel : nat) (proof : Proof.t) (w : World) :
  (forall lv w0, exists r w0',
      validateEligibleFinalProof env proof lv w0 = Ret r w0' /\
      (r = (true, None) <->
         Proof.BatchNumber proof = uint64_add lv 1 /\
         CheckProofContainsCompleteSequences env (tick w0) proof = (true, None))) /\
  (forall w1 w2 lastVerifiedBatch err w3 fuel',
      canVerifyProof env w = Ret true w1 ->
      waitSynced cfg env fuel w1 = Ret tt w2 ->
      GetLastVerifiedBatch env (tick w2) = (lastVerifiedBatch, err) ->
      notNil err && negb (errors_Is err ErrNotFound) = false ->
      validateEligibleFinalProof env proof (lastVerifiedBatchNum_of lastVerifiedBatch)
        (next_tick w2) = Ret (false, None) w3 ->
      (fuel <= fuel')%nat ->
      tryBuildFinalProof cfg env fuel' (Some proof) w = Ret (Some proof, (false, None)) w3 /\
      verifyingProof w3 = true /\
      TimeSendFinalProof w3 = TimeSendFinalProof w).
Proof.
  split; [intros lv w0; apply validateEligibleFinalProof_iff |].
  intros w1 w2 lvb err w3 fuel' Hcan Hwait Hlv Herr Hval Hfuel.
  apply waitSynced_fuel_mono with (fuel' := fuel') in Hwait as Hwait'; [| exact Hfuel].
  split.
  - unfold tryBuildFinalProof. unfold_monad.
    rewrite Hcan. simpl. rewrite Hwait'. simpl. rewrite Hlv, Herr. simpl.
    rewrite Hval. reflexivity.
  - apply canVerifyProof_true in Hcan as (-> & _ & _).
    apply waitSynced_inv in Hwait as (k & n & ->).
    apply validateEligibleFinalProof_advance in Hval as (m & ->).
    split; reflexivity.
Qed.

(** C3 on a run: the gate is open, the last verified batch is 10 and the
    proof handed in starts at batch 12. *)
Lemma tryBuildFinalProof_provided_proof_witness :
  tryBuildFinalProof Scenario.cfg (Scenario.env Scenario.quiet) 1
    (Some (Scenario.proof 12 12 true)) (Scenario.world 50 [])
  = Ret (Some (Scenario.proof 12 12 true), (false, None))
      (advance 4 [EvIsSynced true] (set_verifyingProof true (Scenario.world 50 []))) /\
  verifyingProof (advance 4 [EvIsSynced true] (set_verifyingProof true (Scenario.world 50 []))) = true /\
  TimeSendFinalProof (advance 4 [EvIsSynced true] (set_verifyingProof true (Scenario.world 50 [])))
  = TimeSendFinalProof (Scenario.world 50 []).
Proof.
  apply (proj2 (tryBuildFinalProof_provided_proof Scenario.cfg (Scenario.env Scenario.quiet) 1
                  (Scenario.proof 12 12 true) (Scenario.world 50 []))
           (set_verifyingProof true (next_tick (Scenario.world 50 [])))
           (advance 3 [EvIsSynced true] (set_verifyingProof true (Scenario.world 50 [])))
           (Some (VerifiedBatch.mk 10)) None);
    try reflexivity; lia.
Defined.

(** C9: called without a proof, with the gate open, when the store reports
    that no proof is ready to verify, [tryBuildFinalProof] returns
    [(false, nil)] and has cleared [verifyingProof] when it returns: at the
    [return], the variable [err] still holds the not-found error, so the
    deferred closure re-opens the gate. *)
Theorem tryBuildFinalProof_not_found_reopens_gate
    (cfg : Config) (env : Env) (fuel fuel' : nat) (w w1 w2 : World)
    (lastVerifiedBatch : option VerifiedBatch.t) (err : option error)
    (noProof : option Proof.t) (e : error) :
  canVerifyProof env w = Ret true w1 ->
  waitSynced cfg env fuel w1 = Ret tt w2 ->
  GetLastVerifiedBatch env (tick w2) = (lastVerifiedBatch, err) ->
  notNil err && negb (errors_Is err ErrNotFound) = false ->
  GetProofReadyToVerify env (S (tick w2)) (lastVerifiedBatchNum_of lastVerifiedBatch)
    = (noProof, Some e) ->
  errors_Is (Some e) ErrNotFound = true ->
  (fuel <= fuel')%nat ->
  exists w',
    tryBuildFinalProof cfg env fuel' None w = Ret (None, (false, None)) w' /\
    verifyingProof w' = false /\
    TimeSendFinalProof w' = TimeSendFinalProof w /\
    proofs w' = proofs w.
Proof.
  intros Hcan Hwait Hlv Herr Hready Hnf Hfuel.
  apply waitSynced_fuel_mono with (fuel' := fuel') in Hwait as Hwait'; [| exact Hfuel].
  unfold tryBuildFinalProof, getAndLockProofReadyToVerify. unfold_monad.
  rewrite Hcan. simpl. rewrite Hwait'. simpl. rewrite Hlv, Herr. simpl.
  rewrite Hready. simpl. simpl in Hnf. rewrite Hnf. simpl.
  eexists. split; [reflexivity |].
  apply canVerifyProof_true in Hcan as (-> & _ & _).
  apply waitSynced_inv in Hwait as (k & n & ->).
  repeat split.
Qed.

(** C9 on a run: the gate is open and the store holds no proof row. *)
Lemma tryBuildFinalProof_not_found_reopens_gate_witness :
  exists w',
    tryBuildFinalProof Scenario.cfg (Scenario.env Scenario.quiet) 1 None (Scenario.world 50 [])
    = Ret (None, (false, None)) w' /\
    verifyingProof w' = false /\
    TimeSendFinalProof w' = TimeSendFinalProof (Scenario.world 50 []) /\
    proofs w' = proofs (Scenario.world 50 []).
Proof.
  apply (tryBuildFinalProof_not_found_reopens_gate
           Scenario.cfg (Scenario.env Scenario.quiet) 1 1 (Scenario.world 50 [])
           (set_verifyingProof true (next_tick (Scenario.world 50 [])))
           (advance 3 [EvIsSynced true] (set_verifyingProof true (Scenario.world 50 [])))
           (Some (VerifiedBatch.mk 10)) None None ErrNotFound);
    try reflexivity; lia.
Defined.

(** ** [buildFinalProof] *)

Lemma is_mocked_eqb pub :
  String.eqb (string_of_bytes (NewStateRoot pub)) mockedStateRoot
  && String.eqb (string_of_bytes (NewLocalExitRoot pub)) mockedLocalExitRoot = true
  <-> is_mocked pub.
Proof.
  unfold is_mocked. rewrite andb_true_iff, !String.eqb_eq. reflexivity.
Qed.

(** C8: of the final proof that the prover returned, [buildFinalProof]
    overwrites both roots with those of the final batch row when both equal
    the mock prover's sentinels, and returns the proof as the prover gave it
    when one or none does.  (When both are sentinels and the batch row cannot
    be read, no final proof is returned at all.) *)
Theorem buildFinalProof_mock_roots
    (env : Env) (proof : Proof.t) (w : World)
    (addr id : string) (fp : FinalProof) (pub : PublicInputsExtended) :
  GetPublicAddress env (tick w) = (addr, None) ->
  FinalProof_req env (S (tick w)) (Proof.Payload proof) addr = (Some id, None) ->
  WaitFinalProof env (S (S (tick w))) id = (Some fp, None) ->
  Public fp = Some pub ->
  (~ is_mocked pub ->
     buildFinalProof env proof w
     = Ret (Proof.setProofID (Some id) proof, (Some fp, None)) (advance 3 [] w)) /\
  (is_mocked pub ->
     forall fb,
       GetBatchByNumber env (S (S (S (tick w)))) (Proof.BatchNumberFinal proof)
       = (Some fb, None) ->
       buildFinalProof env proof w
       = Ret (Proof.setProofID (Some id) proof,
              (Some {| FinalProof_Proof := FinalProof_Proof fp;
                       Public := Some {| NewStateRoot := Batch.StateRoot fb;
                                         NewAccInputHash := NewAccInputHash pub;
                                         NewLocalExitRoot := Batch.LocalExitRoot fb;
                                         NewBatchNum := NewBatchNum pub |} |}, None))
           (advance 4 [] w)) /\
  (is_mocked pub ->
     forall noBatch e,
       GetBatchByNumber env (S (S (S (tick w)))) (Proof.BatchNumberFinal proof)
       = (noBatch, Some e) ->
       buildFinalProof env proof w
       = Ret (Proof.setProofID (Some id) proof,
              (None, Some (ErrMsg "Failed to retrieve batch with number")))
           (advance 4 [] w)).
Proof.
  intros Haddr Hid Hwait Hpub.
  assert (H3 : next_tick (next_tick (next_tick w)) = advance 3 [] w)
    by (rewrite !next_tick_advance, !advance_advance; reflexivity).
  assert (H4 : next_tick (next_tick (next_tick (next_tick w))) = advance 4 [] w)
    by (rewrite !next_tick_advance, !advance_advance; reflexivity).
  split.
  - intros Hmock. apply (not_iff_compat (is_mocked_eqb pub)) in Hmock.
    apply not_true_is_false in Hmock.
    unfold buildFinalProof. unfold_monad.
    rewrite Haddr. simpl. rewrite Hid. simpl. rewrite Hwait. simpl.
    rewrite Hpub. rewrite Hmock. rewrite H3. reflexivity.
  - split; [intros Hmock fb Hbatch | intros Hmock noBatch e Hbatch];
      apply is_mocked_eqb in Hmock;
      unfold buildFinalProof; unfold_monad;
      rewrite Haddr; simpl; rewrite Hid; simpl; rewrite Hwait; simpl;
      rewrite Hpub, Hmock; simpl; rewrite Hbatch; simpl;
      rewrite H4; reflexivity.
Qed.

(** C8 on a run with the mock prover: both roots come out as those of the
    final batch row. *)
Lemma buildFinalProof_mock_roots_witness :
  buildFinalProof (Scenario.env Scenario.mock_prover) (Scenario.proof 11 12 true)
    (Scenario.world 50 [])
  = Ret (Proof.setProofID (Some "final-proof-id"%string) (Scenario.proof 11 12 true),
         (Some {| FinalProof_Proof := "final";
                  Public := Some {| NewStateRoot := Batch.StateRoot (Scenario.batch 12);
                                    NewAccInputHash := [];
                                    NewLocalExitRoot := Batch.LocalExitRoot (Scenario.batch 12);
                                    NewBatchNum := 12 |} |}, None))
      (advance 4 [] (Scenario.world 50 [])).
Proof.
  apply (proj1 (proj2 (buildFinalProof_mock_roots (Scenario.env Scenario.mock_prover)
                  (Scenario.proof 11 12 true) (Scenario.world 50 [])
                  "0xa99" "final-proof-id" Scenario.mocked_final
                  {| NewStateRoot := list_byte_of_string mockedStateRoot;
                     NewAccInputHash := [];
                     NewLocalExitRoot := list_byte_of_string mockedLocalExitRoot;
                     NewBatchNum := 12 |}
                  eq_refl eq_refl eq_refl eq_refl)));
    [split; reflexivity | reflexivity].
Defined.

(** ** The final-proof dispatcher *)

Lemma delete_range_lookup (from to : Z) (m : gmap (Z * Z) Proof.t) (k : Z * Z) :
  delete_range from to m !! k = if in_range from to k then None else m !! k.
Proof.
  unfold delete_range. destruct (in_range from to k) eqn:Hin.
  - apply map_lookup_filter_None_2. right. intros x _ Hx. simpl in Hx. congruence.
  - destruct (m !! k) as [x |] eqn:Hk.
    + apply map_lookup_filter_Some_2; [exact Hk | exact Hin].
    + apply map_lookup_filter_None_2. by left.
Qed.

Lemma in_range_true (from to : Z) (k : Z * Z) :
  in_range from to k = true <-> from <= fst k /\ snd k <= to.
Proof. unfold in_range. rewrite andb_true_iff, !Z.leb_le. reflexivity. Qed.

(** The iteration for a message whose final batch row is read and whose
    submission to L1 fails. *)
Lemma sendFinalProof_handle_submission_failure
    cfg env fuel msg proof w fb tx e :
  recursiveProof msg = Some proof ->
  GetBatchByNumber env (tick w) (Proof.BatchNumberFinal proof) = (Some fb, None) ->
  VerifyBatches env (S (tick w)) (uint64_sub (Proof.BatchNumber proof) 1)
    (Proof.BatchNumberFinal proof) (finalProofInputs msg fb) = (tx, Some e) ->
  exists w',
    sendFinalProof_handle cfg env fuel msg w = Ret tt w' /\
    trace w' = trace w ++
      [EvVerifyBatches (uint64_sub (Proof.BatchNumber proof) 1)
         (Proof.BatchNumberFinal proof) (finalProofInputs msg fb);
       EvUpdateGeneratedProof (Proof.setGenerating false proof);
       EvEnableProofVerification] /\
    verifyingProof w' = false /\
    TimeSendFinalProof w' = TimeSendFinalProof w /\
    proofs w' =
      match UpdateGeneratedProof_err env (S (S (tick w))) with
      | Some _ => proofs w
      | None => alter (fun _ => Proof.setGenerating false proof) (Proof.key proof) (proofs w)
      end.
Proof.
  intros Hp Hb Hv.
  unfold sendFinalProof_handle, State_UpdateGeneratedProof, enableProofVerification.
  unfold_monad.
  rewrite Hp. simpl. rewrite Hb. simpl. rewrite Hv. simpl.
  destruct (UpdateGeneratedProof_err env (S (S (tick w)))); simpl;
    eexists; (split; [reflexivity |]); simpl; rewrite <- !app_assoc; auto.
Qed.

(** C5: when the submission to L1 of a consumed message fails, the
    dispatcher writes the recursive proof back with [generating = false],
    calls [enableProofVerification] (which clears [verifyingProof] and leaves
    the deadline where it was), deletes no proof row, and goes on with the
    next message. *)
Theorem sendFinalProof_submission_failure
    (cfg : Config) (env : Env) (fuel : nat) (msg : finalProofMsg)
    (rest : list finalProofMsg) (proof : Proof.t) (w : World)
    (fb : Batch.t) (tx : option string) (e : error) :
  ctx_Done env (tick w) = false ->
  recursiveProof msg = Some proof ->
  GetBatchByNumber env (S (tick w)) (Proof.BatchNumberFinal proof) = (Some fb, None) ->
  VerifyBatches env (S (S (tick w))) (uint64_sub (Proof.BatchNumber proof) 1)
    (Proof.BatchNumberFinal proof) (finalProofInputs msg fb) = (tx, Some e) ->
  exists w',
    sendFinalProof_handle cfg env fuel msg (next_tick w) = Ret tt w' /\
    sendFinalProof cfg env fuel (msg :: rest) w = sendFinalProof cfg env fuel rest w' /\
    trace w' = trace w ++
      [EvVerifyBatches (uint64_sub (Proof.BatchNumber proof) 1)
         (Proof.BatchNumberFinal proof) (finalProofInputs msg fb);
       EvUpdateGeneratedProof (Proof.setGenerating false proof);
       EvEnableProofVerification] /\
    Proof.Generating (Proof.setGenerating false proof) = false /\
    verifyingProof w' = false /\
    TimeSendFinalProof w' = TimeSendFinalProof w /\
    dom (proofs w') = dom (proofs w) /\
    (UpdateGeneratedProof_err env (S (S (S (tick w)))) = None ->
     is_Some (proofs w !! Proof.key proof) ->
     Proof.Generating <$> proofs w' !! Proof.key proof = Some false).
Proof.
  intros Hctx Hp Hb Hv.
  destruct (sendFinalProof_handle_submission_failure cfg env fuel msg proof
              (next_tick w) fb tx e Hp Hb Hv)
    as (w' & Hrun & Htrace & Hver & Hdl & Hrows).
  exists w'. split; [exact Hrun |].
  split.
  { simpl. unfold bind at 1. unfold ask at 1. rewrite Hctx.
    unfold bind at 1. rewrite Hrun. reflexivity. }
  split; [exact Htrace |]. split; [reflexivity |].
  split; [exact Hver |]. split; [exact Hdl |].
  simpl in Hrows. rewrite Hrows. split.
  - destruct (UpdateGeneratedProof_err env (S (S (S (tick w))))); [reflexivity |].
    apply dom_alter_L.
  - intros -> [row Hrow]. rewrite lookup_alter_eq, Hrow. reflexivity.
Qed.

(** C5 on a run: the transaction manager refuses the submission of the
    final proof for batches 11 to 12. *)
Lemma sendFinalProof_submission_failure_witness :
  exists w',
    sendFinalProof_handle Scenario.cfg (Scenario.env Scenario.l1_failure) 1
      (Scenario.msg 11 12) (next_tick (Scenario.world 50 [Scenario.proof 11 12 true]))
    = Ret tt w' /\
    sendFinalProof Scenario.cfg (Scenario.env Scenario.l1_failure) 1
      [Scenario.msg 11 12] (Scenario.world 50 [Scenario.proof 11 12 true])
    = sendFinalProof Scenario.cfg (Scenario.env Scenario.l1_failure) 1 [] w' /\
    trace w' = trace (Scenario.world 50 [Scenario.proof 11 12 true]) ++
      [EvVerifyBatches (uint64_sub 11 1) 12
         (finalProofInputs (Scenario.msg 11 12) (Scenario.batch 12));
       EvUpdateGeneratedProof (Proof.setGenerating false (Scenario.proof 11 12 true));
       EvEnableProofVerification] /\
    Proof.Generating (Proof.setGenerating false (Scenario.proof 11 12 true)) = false /\
    verifyingProof w' = false /\
    TimeSendFinalProof w' = 50 /\
    dom (proofs w') = dom (proofs (Scenario.world 50 [Scenario.proof 11 12 true])) /\
    (UpdateGeneratedProof_err (Scenario.env Scenario.l1_failure) 3 = None ->
     is_Some (proofs (Scenario.world 50 [Scenario.proof 11 12 true]) !! (11, 12)) ->
     Proof.Generating <$> proofs w' !! (11, 12) = Some false).
Proof.
  apply (sendFinalProof_submission_failure Scenario.cfg (Scenario.env Scenario.l1_failure) 1
           (Scenario.msg 11 12) [] (Scenario.proof 11 12 true)
           (Scenario.world 50 [Scenario.proof 11 12 true])
           (Scenario.batch 12) None (ErrMsg "nonce too low"));
    reflexivity.
Defined.

(** The iteration for a message whose final batch row cannot be read:
    whatever the error, and whatever comes with it, the dispatcher only
    re-enables the gate. *)
Lemma sendFinalProof_handle_batch_unreadable cfg env fuel msg proof w fbo e :
  recursiveProof msg = Some proof ->
  GetBatchByNumber env (tick w) (Proof.BatchNumberFinal proof) = (fbo, Some e) ->
  sendFinalProof_handle cfg env fuel msg w
  = Ret tt (set_verifyingProof false (add_event EvEnableProofVerification (next_tick w))).
Proof.
  intros Hp Hb. unfold sendFinalProof_handle, enableProofVerification. unfold_monad.
  rewrite Hp. simpl. rewrite Hb. reflexivity.
Qed.

(** C6, as the code has it.  For a consumed message whose final batch row
    is read without error, the dispatcher calls [VerifyBatches] with the
    proof's batch number minus one (in [uint64]) and its final batch number;
    when the submission succeeds it polls [isSynced], sleeping [RetryTime]
    after each poll that finds the state behind, then calls
    [resetVerifyProofTime] (which clears [verifyingProof] and sets the
    deadline to the current time plus [VerifyProofInterval]), then deletes
    the proofs within the range, in that order.  For a consumed message whose
    final batch row cannot be read, whatever the error, [VerifyBatches] is
    not called: the dispatcher calls [enableProofVerification] and nothing
    else (no wait, no reset of the deadline, no write to the store), and
    goes on with the next message. *)
Theorem sendFinalProof_submission_order
    (cfg : Config) (env : Env) (fuel : nat) (msg : finalProofMsg)
    (proof : Proof.t) (w : World) :
  recursiveProof msg = Some proof ->
  (forall fb,
      GetBatchByNumber env (tick w) (Proof.BatchNumberFinal proof) = (Some fb, None) ->
      let verify := EvVerifyBatches (uint64_sub (Proof.BatchNumber proof) 1)
                      (Proof.BatchNumberFinal proof) (finalProofInputs msg fb) in
      (forall tx e,
          VerifyBatches env (S (tick w)) (uint64_sub (Proof.BatchNumber proof) 1)
            (Proof.BatchNumberFinal proof) (finalProofInputs msg fb) = (tx, Some e) ->
          exists w' evs,
            sendFinalProof_handle cfg env fuel msg w = Ret tt w' /\
            trace w' = trace w ++ verify :: evs) /\
      (forall h w3 fuel',
          VerifyBatches env (S (tick w)) (uint64_sub (Proof.BatchNumber proof) 1)
            (Proof.BatchNumberFinal proof) (finalProofInputs msg fb) = (Some h, None) ->
          waitSynced cfg env fuel (advance 2 [verify] w) = Ret tt w3 ->
          (fuel <= fuel')%nat ->
          exists k w',
            sendFinalProof_handle cfg env fuel' msg w = Ret tt w' /\
            trace w' = trace w ++ [verify] ++ sync_polls cfg k ++
                         [EvResetVerifyProofTime;
                          EvDeleteGeneratedProofs (Proof.BatchNumber proof)
                            (Proof.BatchNumberFinal proof)] /\
            verifyingProof w' = false /\
            TimeSendFinalProof w' = time_Now env (tick w3) + VerifyProofInterval cfg /\
            (DeleteGeneratedProofs_err env (S (tick w3)) = None ->
             forall key,
               proofs w' !! key =
                 if in_range (Proof.BatchNumber proof) (Proof.BatchNumberFinal proof) key
                 then None else proofs w !! key))) /\
  (forall fbo e,
      GetBatchByNumber env (tick w) (Proof.BatchNumberFinal proof) = (fbo, Some e) ->
      exists w',
        sendFinalProof_handle cfg env fuel msg w = Ret tt w' /\
        trace w' = trace w ++ [EvEnableProofVerification] /\
        verifyingProof w' = false /\
        TimeSendFinalProof w' = TimeSendFinalProof w /\
        proofs w' = proofs w /\ pending w' = pending w /\
        tick w' = S (tick w) /\
        (forall rest w0,
            ctx_Done env (tick w0) = false -> w = next_tick w0 ->
            sendFinalProof cfg env fuel (msg :: rest) w0
            = sendFinalProof cfg env fuel rest w')).
Proof.
  intros Hp. split.
  - intros fb Hb verify. split.
    + intros tx e Hv.
      destruct (sendFinalProof_handle_submission_failure cfg env fuel msg proof w fb tx e
                  Hp Hb Hv) as (w' & Hrun & Htrace & _).
      exists w'. eexists. split; [exact Hrun | exact Htrace].
    + intros h w3 fuel' Hv Hwait Hfuel.
      apply waitSynced_fuel_mono with (fuel' := fuel') in Hwait as Hwait'; [| exact Hfuel].
      apply waitSynced_inv in Hwait as (k & n & Hw3).
      exists k.
      unfold sendFinalProof_handle, State_DeleteGeneratedProofs, resetVerifyProofTime.
      unfold_monad.
      rewrite Hp. simpl. rewrite Hb. simpl. rewrite Hv. simpl.
      replace (next_tick (add_event _ (next_tick w))) with (advance 2 [verify] w)
        by (rewrite !next_tick_advance, add_event_advance, !advance_advance; reflexivity).
      rewrite Hwait'.
      destruct (DeleteGeneratedProofs_err env (S (tick w3))) eqn:Hdel; simpl;
        eexists; (split; [reflexivity |]); simpl; subst w3; simpl;
        rewrite <- !app_assoc; repeat split; try discriminate.
      intros _ key. apply delete_range_lookup.
  - intros fbo e Hb.
    pose proof (sendFinalProof_handle_batch_unreadable cfg env fuel msg proof w fbo e Hp Hb)
      as Hrun.
    eexists. split; [exact Hrun |].
    repeat split.
    intros rest w0 Hctx ->. simpl. unfold bind at 1. unfold ask at 1. rewrite Hctx.
    unfold bind at 1. rewrite Hrun. reflexivity.
Qed.

(** C6 on two runs.  The submission for batches 11 to 12 succeeds, the first
    poll finds the state behind L1 and the second finds them synced.  In the
    other run the final batch row cannot be read. *)
Lemma sendFinalProof_submission_order_witness :
  (exists k w',
    sendFinalProof_handle Scenario.cfg (Scenario.env Scenario.late_sync) 2
      (Scenario.msg 11 12) (Scenario.world 50 [Scenario.proof 11 12 true]) = Ret tt w' /\
    trace w' = trace (Scenario.world 50 [Scenario.proof 11 12 true]) ++
      [EvVerifyBatches (uint64_sub 11 1) 12
         (finalProofInputs (Scenario.msg 11 12) (Scenario.batch 12))] ++
      sync_polls Scenario.cfg k ++
      [EvResetVerifyProofTime; EvDeleteGeneratedProofs 11 12] /\
    verifyingProof w' = false /\
    TimeSendFinalProof w' = 100 + VerifyProofInterval Scenario.cfg /\
    (DeleteGeneratedProofs_err (Scenario.env Scenario.late_sync) 7 = None ->
     forall key,
       proofs w' !! key =
         if in_range 11 12 key then None
         else proofs (Scenario.world 50 [Scenario.proof 11 12 true]) !! key)) /\
  (exists w',
    sendFinalProof_handle Scenario.cfg (Scenario.env Scenario.batch_unreadable) 1
      (Scenario.msg 11 12)
      (next_tick (set_verifyingProof true (Scenario.world 50 [Scenario.proof 11 12 true])))
    = Ret tt w' /\
    trace w' = [EvEnableProofVerification] /\
    verifyingProof w' = false /\
    TimeSendFinalProof w' = 50 /\
    proofs w' = proofs (Scenario.world 50 [Scenario.proof 11 12 true]) /\
    sendFinalProof Scenario.cfg (Scenario.env Scenario.batch_unreadable) 1
      [Scenario.msg 11 12; Scenario.msg 13 13]
      (set_verifyingProof true (Scenario.world 50 [Scenario.proof 11 12 true]))
    = sendFinalProof Scenario.cfg (Scenario.env Scenario.batch_unreadable) 1
        [Scenario.msg 13 13] w').
Proof.
  split.
  - apply (proj2 (proj1 (sendFinalProof_submission_order Scenario.cfg
                           (Scenario.env Scenario.late_sync) 2
                           (Scenario.msg 11 12) (Scenario.proof 11 12 true)
                           (Scenario.world 50 [Scenario.proof 11 12 true]) eq_refl)
                    (Scenario.batch 12) eq_refl)
             "0x7a"%string
             (advance 6 ([EvVerifyBatches (uint64_sub 11 1) 12
                            (finalProofInputs (Scenario.msg 11 12) (Scenario.batch 12))]
                         ++ sync_polls Scenario.cfg 1)
                (Scenario.world 50 [Scenario.proof 11 12 true]))
             2%nat);
      [reflexivity | reflexivity | lia].
  - destruct (proj2 (sendFinalProof_submission_order Scenario.cfg
                       (Scenario.env Scenario.batch_unreadable) 1
                       (Scenario.msg 11 12) (Scenario.proof 11 12 true)
                       (next_tick (set_verifyingProof true
                                     (Scenario.world 50 [Scenario.proof 11 12 true])))
                       eq_refl)
                None (ErrMsg "connection reset") eq_refl)
      as (w' & Hrun & Htrace & Hver & Hdl & Hrows & _ & _ & Hnext).
    exists w'. split; [exact Hrun |]. split; [exact Htrace |]. split; [exact Hver |].
    split; [exact Hdl |]. split; [exact Hrows |].
    apply Hnext; reflexivity.
Defined.

(** C6, the claim as stated refuted: when the final batch row cannot be
    read, the message is consumed and [VerifyBatches] is not called; the
    dispatcher only re-enables the gate. *)
Lemma sendFinalProof_without_submission :
  sendFinalProof_handle Scenario.cfg (Scenario.env Scenario.batch_unreadable) 1
    (Scenario.msg 11 12) (Scenario.world 50 [Scenario.proof 11 12 true])
  = Ret tt (set_verifyingProof false
              (advance 1 [EvEnableProofVerification]
                 (Scenario.world 50 [Scenario.proof 11 12 true]))) /\
  trace (set_verifyingProof false
           (advance 1 [EvEnableProofVerification]
              (Scenario.world 50 [Scenario.proof 11 12 true])))
  = [EvEnableProofVerification].
Proof. split; reflexivity. Qed.

(** ** [tryGenerateBatchProof] when the batch is not profitable *)

(** C2, what the code does: when the profitability policy rejects the
    batch, [getAndLockBatchToProve] returns [(nil, nil, err)] with [err]
    nil, nothing having been inserted; [tryGenerateBatchProof] takes that for
    a success, dereferences the nil batch and panics instead of returning
    [(false, nil)]. *)
Theorem tryGenerateBatchProof_unprofitable_panics
    (cfg : Config) (env : Env) (fuel : nat) (w : World)
    (lvb : VerifiedBatch.t) (btv : Batch.t) :
  GetLastVerifiedBatch env (tick w) = (Some lvb, None) ->
  GetVirtualBatchToProve env (S (tick w)) (VerifiedBatch.BatchNumber lvb) = (Some btv, None) ->
  IsProfitable env (S (S (tick w))) = (false, None) ->
  getAndLockBatchToProve env w = Ret (None, None, None) (advance 3 [] w) /\
  tryGenerateBatchProof cfg env fuel w = Panic (advance 3 [] w).
Proof.
  intros Hlv Hvb Hprofit.
  assert (H3 : next_tick (next_tick (next_tick w)) = advance 3 [] w)
    by (rewrite !next_tick_advance, !advance_advance; reflexivity).
  assert (Hlock : getAndLockBatchToProve env w = Ret (None, None, None) (advance 3 [] w)).
  { unfold getAndLockBatchToProve. unfold_monad.
    rewrite Hlv. simpl. rewrite Hvb. simpl. rewrite Hprofit. simpl.
    by rewrite H3. }
  split; [exact Hlock |].
  unfold tryGenerateBatchProof. unfold bind at 1. rewrite Hlock. reflexivity.
Qed.

(** C2 on a run: batch 11 is pending and the policy rejects it. *)
Lemma tryGenerateBatchProof_unprofitable_panics_witness :
  getAndLockBatchToProve (Scenario.env Scenario.unprofitable) (Scenario.world 50 [])
  = Ret (None, None, None) (advance 3 [] (Scenario.world 50 [])) /\
  tryGenerateBatchProof Scenario.cfg (Scenario.env Scenario.unprofitable) 1 (Scenario.world 50 [])
  = Panic (advance 3 [] (Scenario.world 50 [])).
Proof.
  apply (tryGenerateBatchProof_unprofitable_panics Scenario.cfg
           (Scenario.env Scenario.unprofitable) 1 (Scenario.world 50 [])
           (VerifiedBatch.mk 10) (Scenario.batch 11));
    reflexivity.
Defined.

(** ** [tryAggregateProofs] when the final proof fails *)

(** C1, what the code does: proofs 11-11 and 12-12 are aggregated and the
    row 11-12 is committed with [generating = true]; building the final proof
    then fails, [tryAggregateProofs] returns an error, its deferred closure
    unlocks the two rows that no longer exist, and the row 11-12 is left with
    [generating = true]. *)
Theorem tryAggregateProofs_leaves_row_generating :
  exists e w',
    tryAggregateProofs Scenario.cfg (Scenario.env Scenario.final_proof_fails) 1
      (Scenario.world 50 [Scenario.proof 11 11 false; Scenario.proof 12 12 false])
    = Ret (false, Some e) w' /\
    Proof.Generating <$> proofs w' !! (11, 12) = Some true /\
    proofs w' !! (11, 11) = None /\
    proofs w' !! (12, 12) = None /\
    pending w' = None /\
    verifyingProof w' = false.
Proof.
  eexists _, _. split; [vm_compute; reflexivity |].
  vm_compute. repeat split.
Qed.

(** The sibling path: on the same failure of the final proof,
    [tryGenerateBatchProof] does release the row it locked (its deferred
    closure deletes the row 11-11). *)
Example tryGenerateBatchProof_releases_row :
  exists e w',
    tryGenerateBatchProof Scenario.cfg (Scenario.env Scenario.final_proof_fails) 1
      (Scenario.world 50 [])
    = Ret (false, Some e) w' /\
    proofs w' = ∅ /\
    verifyingProof w' = false.
Proof.
  eexists _, _. split; [vm_compute; reflexivity |].
  split; [| reflexivity]. apply map_eq. intros k. vm_compute. reflexivity.
Qed.

(** * Further properties *)

(** ** Rules for [wp] and [preserves] *)

Lemma wp_bind {S A B : Type} (m : M S A) (k : A -> M S B) s Q P :
  wp m s (fun a s' => wp (k a) s' Q P) P -> wp (bind m k) s Q P.
Proof. unfold wp, bind. destruct (m s); auto. Qed.

Lemma wp_mono {S A : Type} (m : M S A) s (Q Q' : A -> S -> Prop) (P P' : S -> Prop) :
  wp m s Q P -> (forall a s', Q a s' -> Q' a s') -> (forall s', P s' -> P' s') ->
  wp m s Q' P'.
Proof. unfold wp. destruct (m s); auto. Qed.

Lemma preserves_ret {A : Type} R (a : A) : stable R -> preserves R (ret a).
Proof. intros HR w. apply HR. Qed.

Lemma preserves_panic {A : Type} R : stable R -> preserves R (@panic World A).
Proof. intros HR w. apply HR. Qed.

Lemma preserves_bind {A B : Type} R (m : M World A) (k : A -> M World B) :
  stable R -> preserves R m -> (forall a, preserves R (k a)) -> preserves R (bind m k).
Proof.
  intros HR Hm Hk w. apply wp_bind.
  apply (wp_mono _ _ _ _ _ _ (Hm w)); [| auto].
  intros a w1 H1.
  apply (wp_mono _ _ _ _ _ _ (Hk a w1));
    intros; apply (stable_trans R HR w w1); assumption.
Qed.

Lemma preserves_deref {A : Type} R (p : option A) : stable R -> preserves R (deref p).
Proof. intros HR. destruct p; [apply preserves_ret | apply preserves_panic]; exact HR. Qed.

Lemma preserves_ask {A : Type} R env (f : Env -> nat -> A) :
  stable R -> preserves R (ask env f).
Proof. intros HR w. apply HR. Qed.

Lemma preserves_emit R e : stable R -> preserves R (emit e).
Proof. intros HR w. apply HR. Qed.

Lemma preserves_time_Sleep R d : stable R -> preserves R (time_Sleep d).
Proof. intros HR w. apply HR. Qed.

Lemma preserves_enableProofVerification R :
  stable R -> stable_under_gate R -> preserves R enableProofVerification.
Proof.
  intros HR HG w. unfold wp. rewrite enableProofVerification_eq.
  apply (stable_trans R HR w (add_event EvEnableProofVerification w));
    [apply HR | apply HG].
Qed.

Lemma preserves_canVerifyProof R env :
  stable R -> stable_under_gate R -> preserves R (canVerifyProof env).
Proof.
  intros HR HG w. unfold wp. rewrite canVerifyProof_eq.
  destruct (_ && _); [| apply HR].
  apply (stable_trans R HR w (next_tick w)); [apply HR | apply HG].
Qed.

#[global] Hint Resolve preserves_ret preserves_panic preserves_deref preserves_ask
  preserves_emit preserves_time_Sleep preserves_enableProofVerification
  preserves_canVerifyProof : preserves.

(** Follows a function body statement by statement. *)
Ltac preserve :=
  repeat first
    [ solve [auto with preserves]
    | apply preserves_bind; [solve [auto] | | intros]
    | match goal with
      | |- preserves _ (match ?x with _ => _ end) => destruct x
      end ].

Lemma preserves_isSynced R env : stable R -> preserves R (isSynced env).
Proof. intros HR. unfold isSynced. preserve. Qed.

#[global] Hint Resolve preserves_isSynced : preserves.

Lemma preserves_waitSynced R cfg env fuel : stable R -> preserves R (waitSynced cfg env fuel).
Proof.
  intros HR. induction fuel as [| fuel IH]; [intros w; exact I |].
  simpl. preserve.
Qed.

#[global] Hint Resolve preserves_waitSynced : preserves.

Lemma preserves_buildFinalProof R env proof :
  stable R -> preserves R (buildFinalProof env proof).
Proof. intros HR. unfold buildFinalProof. preserve. Qed.

Lemma preserves_validateEligibleFinalProof R env proof lv :
  stable R -> preserves R (validateEligibleFinalProof env proof lv).
Proof. intros HR. unfold validateEligibleFinalProof. preserve. Qed.

#[global] Hint Resolve preserves_buildFinalProof preserves_validateEligibleFinalProof
  : preserves.

(** *** Function bodies *)

Lemma preservesF_ret {V A : Type} R (a : A) :
  stable R -> preservesF R (@ret (Frame World V * World) A a).
Proof. intros HR fw Hd. split; [apply HR | exact Hd]. Qed.

Lemma preservesF_bind {V A B : Type} R (m : F World V A) (k : A -> F World V B) :
  stable R -> preservesF R m -> (forall a, preservesF R (k a)) -> preservesF R (bind m k).
Proof.
  intros HR Hm Hk fw Hd. apply wp_bind.
  apply (wp_mono _ _ _ _ _ _ (Hm fw Hd)); [| auto].
  intros a fw1 [H1 Hd1].
  apply (wp_mono _ _ _ _ _ _ (Hk a fw1 Hd1));
    intros ? ? [H2 Hd2] || intros ? [H2 Hd2];
    (split; [apply (stable_trans R HR _ (snd fw1)); assumption | exact Hd2]).
Qed.

Lemma preservesF_lift {V A : Type} R (m : M World A) :
  preserves R m -> preservesF R (@lift World V A m).
Proof.
  intros Hm [f w] Hd. unfold wp, lift. simpl.
  specialize (Hm w). unfold wp in Hm. destruct (m w); simpl; auto.
Qed.

Lemma preservesF_get_vars {V : Type} R : stable R -> preservesF R (@get_vars World V).
Proof. intros HR fw Hd. split; [apply HR | exact Hd]. Qed.

Lemma preservesF_set_vars {V : Type} R (v : V) :
  stable R -> preservesF R (@set_vars World V v).
Proof. intros HR fw Hd. split; [apply HR | exact Hd]. Qed.

Lemma preservesF_defer {V : Type} R (d : V -> M World unit) :
  stable R -> (forall v, preserves R (d v)) -> preservesF R (defer d).
Proof. intros HR Hdv fw Hd. split; [apply HR | constructor; assumption]. Qed.

Lemma preservesF_assign_err R err : stable R -> preservesF R (@assign_err World err).
Proof. intros HR fw Hd. split; [apply HR | exact Hd]. Qed.

Lemma preservesF_assign_proof R proof :
  stable R -> preservesF R (@assign_proof World proof).
Proof. intros HR fw Hd. split; [apply HR | exact Hd]. Qed.

Lemma preserves_run_deferred {V : Type} R (ds : list (V -> M World unit)) (v : V) :
  stable R ->
  Forall (fun d => forall v, preserves R (d v)) ds ->
  preserves R (run_deferred ds v).
Proof.
  intros HR Hds. induction Hds as [| d ds Hd Hds IH]; [apply preserves_ret; exact HR |].
  intros w. unfold wp. simpl.
  specialize (Hd v w). unfold wp in Hd.
  destruct (d v w) as [[] w1 | w1 |]; [| | exact I].
  - specialize (IH w1). unfold wp in IH.
    destruct (run_deferred ds v w1); auto; apply (stable_trans R HR w w1); assumption.
  - specialize (IH w1). unfold wp in IH.
    destruct (run_deferred ds v w1); auto; apply (stable_trans R HR w w1); assumption.
Qed.

Lemma preserves_run_frame {V A : Type} R (v0 : V) (body : F World V A) :
  stable R -> preservesF R body -> preserves R (run_frame v0 body).
Proof.
  intros HR Hbody w. unfold wp, run_frame.
  specialize (Hbody ({| vars := v0; deferred := [] |}, w) (List.Forall_nil _)).
  unfold wp in Hbody. simpl in Hbody.
  destruct (body _) as [r [f w1] | [f w1] |]; [| | exact I];
    destruct Hbody as [H1 Hd];
    pose proof (preserves_run_deferred R (deferred f) (vars f) HR Hd w1) as H2;
    unfold wp in H2; simpl in *;
    destruct (run_deferred (deferred f) (vars f) w1); auto;
    apply (stable_trans R HR w w1); assumption.
Qed.

#[global] Hint Resolve preservesF_ret preservesF_lift preservesF_get_vars
  preservesF_set_vars preservesF_defer preservesF_assign_err preservesF_assign_proof
  : preserves.

(** Follows a function body that runs in a frame. *)
Ltac preserveF :=
  repeat first
    [ solve [auto with preserves]
    | apply preservesF_lift; solve [preserve]
    | apply preservesF_bind; [solve [auto] | | intros]
    | match goal with
      | |- preservesF _ (match ?x with _ => _ end) => destruct x
      end ].

Lemma preserves_tryBuildFinalProof_defer1 R v :
  stable R -> stable_under_gate R -> preserves R (tryBuildFinalProof_defer1 v).
Proof. intros HR HG. unfold tryBuildFinalProof_defer1. preserve. Qed.

#[global] Hint Resolve preserves_tryBuildFinalProof_defer1 : preserves.

Lemma preservesF_tryBuildFinalProof_build R env p :
  stable R -> preservesF R (tryBuildFinalProof_build env p).
Proof. intros HR. unfold tryBuildFinalProof_build. preserveF. Qed.

#[global] Hint Resolve preservesF_tryBuildFinalProof_build : preserves.

(** Called with a proof, [tryBuildFinalProof] changes nothing but
    [verifyingProof], the interaction counter and the trace. *)
Lemma preserves_tryBuildFinalProof_provided R cfg env fuel p :
  stable R -> stable_under_gate R ->
  preserves R (tryBuildFinalProof cfg env fuel (Some p)).
Proof.
  intros HR HG. unfold tryBuildFinalProof. preserve.
  apply preserves_run_frame; [exact HR |]. preserveF.
Qed.

(** *** The store's writes and the operations that use them *)

Lemma preserves_store_write R env failure dbTx f :
  stable R -> stable_under_writes R -> preserves R (store_write env failure dbTx f).
Proof.
  intros HR HW. unfold store_write. preserve.
  intros w. unfold wp, modify. destruct dbTx; simpl; apply HW.
Qed.

#[global] Hint Resolve preserves_store_write : preserves.

Lemma preserves_State_AddGeneratedProof R env p dbTx :
  stable R -> stable_under_writes R -> preserves R (State_AddGeneratedProof env p dbTx).
Proof. intros HR HW. unfold State_AddGeneratedProof. preserve. Qed.

Lemma preserves_State_UpdateGeneratedProof R env p dbTx :
  stable R -> stable_under_writes R -> preserves R (State_UpdateGeneratedProof env p dbTx).
Proof. intros HR HW. unfold State_UpdateGeneratedProof. preserve. Qed.

Lemma preserves_State_DeleteGeneratedProofs R env from to dbTx :
  stable R -> stable_under_writes R ->
  preserves R (State_DeleteGeneratedProofs env from to dbTx).
Proof. intros HR HW. unfold State_DeleteGeneratedProofs. preserve. Qed.

Lemma preserves_State_BeginStateTransaction R env :
  stable R -> stable_under_writes R -> preserves R (State_BeginStateTransaction env).
Proof.
  intros HR HW. unfold State_BeginStateTransaction. preserve.
  intros w. apply HW.
Qed.

Lemma preserves_dbTx_Commit R env :
  stable R -> stable_under_writes R -> preserves R (dbTx_Commit env).
Proof.
  intros HR HW. unfold dbTx_Commit. preserve; intros w; unfold wp, modify; simpl.
  - apply HW.
  - destruct (pending w); [| apply HR].
    apply (stable_trans R HR w (set_proofs g w)); apply HW.
Qed.

Lemma preserves_dbTx_Rollback R :
  stable R -> stable_under_writes R -> preserves R dbTx_Rollback.
Proof. intros HR HW w. apply HW. Qed.

#[global] Hint Resolve preserves_State_AddGeneratedProof
  preserves_State_UpdateGeneratedProof preserves_State_DeleteGeneratedProofs
  preserves_State_BeginStateTransaction preserves_dbTx_Commit preserves_dbTx_Rollback
  : preserves.

Lemma preserves_getAndLockProofReadyToVerify R env lv :
  stable R -> stable_under_writes R -> preserves R (getAndLockProofReadyToVerify env lv).
Proof. intros HR HW. unfold getAndLockProofReadyToVerify. preserve. Qed.

Lemma preserves_tryBuildFinalProof_defer2 R env v :
  stable R -> stable_under_writes R -> preserves R (tryBuildFinalProof_defer2 env v).
Proof. intros HR HW. unfold tryBuildFinalProof_defer2. preserve. Qed.

#[global] Hint Resolve preserves_getAndLockProofReadyToVerify
  preserves_tryBuildFinalProof_defer2 : preserves.

Lemma preserves_tryBuildFinalProof R cfg env fuel proof :
  stable R -> stable_under_gate R -> stable_under_writes R ->
  preserves R (tryBuildFinalProof cfg env fuel proof).
Proof.
  intros HR HG HW. unfold tryBuildFinalProof. preserve;
    (apply preserves_run_frame; [exact HR |]); preserveF.
Qed.

#[global] Hint Resolve preserves_tryBuildFinalProof : preserves.

Lemma preserves_unlockProofsToAggregate R env proof1 proof2 :
  stable R -> stable_under_writes R ->
  preserves R (unlockProofsToAggregate env proof1 proof2).
Proof. intros HR HW. unfold unlockProofsToAggregate. preserve. Qed.

Lemma preserves_getAndLockProofsToAggregate R env :
  stable R -> stable_under_writes R -> preserves R (getAndLockProofsToAggregate env).
Proof. intros HR HW. unfold getAndLockProofsToAggregate. preserve. Qed.

#[global] Hint Resolve preserves_unlockProofsToAggregate
  preserves_getAndLockProofsToAggregate : preserves.

Lemma preserves_tryAggregateProofs_defer R env proof1 proof2 err :
  stable R -> stable_under_writes R ->
  preserves R (tryAggregateProofs_defer env proof1 proof2 err).
Proof. intros HR HW. unfold tryAggregateProofs_defer. preserve. Qed.

#[global] Hint Resolve preserves_tryAggregateProofs_defer : preserves.

Lemma preserves_tryAggregateProofs R cfg env fuel :
  stable R -> stable_under_gate R -> stable_under_writes R ->
  preserves R (tryAggregateProofs cfg env fuel).
Proof.
  intros HR HG HW. unfold tryAggregateProofs. preserve.
  apply preserves_run_frame; [exact HR |]. preserveF.
Qed.

Lemma preserves_getAndLockBatchToProve R env :
  stable R -> stable_under_writes R -> preserves R (getAndLockBatchToProve env).
Proof. intros HR HW. unfold getAndLockBatchToProve. preserve. Qed.

Lemma preserves_buildInputProver R cfg env batch :
  stable R -> preserves R (buildInputProver cfg env batch).
Proof. intros HR. unfold buildInputProver. preserve. Qed.

Lemma preserves_tryGenerateBatchProof_defer R env proof err :
  stable R -> stable_under_writes R ->
  preserves R (tryGenerateBatchProof_defer env proof err).
Proof. intros HR HW. unfold tryGenerateBatchProof_defer. preserve. Qed.

#[global] Hint Resolve preserves_getAndLockBatchToProve preserves_buildInputProver
  preserves_tryGenerateBatchProof_defer : preserves.

Lemma preserves_tryGenerateBatchProof R cfg env fuel :
  stable R -> stable_under_gate R -> stable_under_writes R ->
  preserves R (tryGenerateBatchProof cfg env fuel).
Proof.
  intros HR HG HW. unfold tryGenerateBatchProof. preserve.
  apply preserves_run_frame; [exact HR |]. preserveF.
Qed.

#[global] Hint Resolve preserves_tryAggregateProofs preserves_tryGenerateBatchProof
  : preserves.

(** *** The relations *)

Lemma stable_same_table : stable same_table /\ stable_under_gate same_table.
Proof.
  split; constructor; unfold same_table; simpl; auto.
  intros w1 w2 w3 [-> ->] [-> ->]. auto.
Qed.

Lemma stable_same_deadline :
  stable same_deadline /\ stable_under_gate same_deadline /\
  stable_under_writes same_deadline.
Proof.
  repeat split; unfold same_deadline; simpl; auto.
  intros w1 w2 w3 -> ->. auto.
Qed.

Lemma stable_same_gate : stable same_gate /\ stable_under_writes same_gate.
Proof.
  split; constructor; unfold same_gate; simpl; auto.
  intros w1 w2 w3 [-> ->] [-> ->]. auto.
Qed.

(** ** What the operations leave unchanged *)

Lemma preserves_Channel_pass R cfg env idle fuel :
  stable R -> stable_under_gate R -> stable_under_writes R ->
  preserves R (Channel_pass cfg env idle fuel).
Proof. intros HR HG HW. unfold Channel_pass. preserve. Qed.

#[global] Hint Resolve preserves_Channel_pass : preserves.

Lemma preserves_Channel_loop R cfg env idle done fuel n :
  stable R -> stable_under_gate R -> stable_under_writes R ->
  preserves R (Channel_loop cfg env idle done fuel n).
Proof.
  intros HR HG HW. induction n as [| n IH]; [intros w; exact I |].
  simpl. preserve.
Qed.

(** X1: none of the three pipeline operations, and no run of the scheduler
    loop built from them, moves the gate's deadline, whether it returns or
    panics. *)
Theorem pipeline_keeps_deadline
    (cfg : Config) (env : Env) (fuel : nat) (proof : option Proof.t) (w : World) :
  ends_with (tryBuildFinalProof cfg env fuel proof w)
    (fun w' => TimeSendFinalProof w' = TimeSendFinalProof w) /\
  ends_with (tryAggregateProofs cfg env fuel w)
    (fun w' => TimeSendFinalProof w' = TimeSendFinalProof w) /\
  ends_with (tryGenerateBatchProof cfg env fuel w)
    (fun w' => TimeSendFinalProof w' = TimeSendFinalProof w) /\
  forall (prover_IsIdle stream_Done : nat -> bool) (n : nat),
    ends_with (Channel_loop cfg env prover_IsIdle stream_Done fuel n w)
      (fun w' => TimeSendFinalProof w' = TimeSendFinalProof w).
Proof.
  destruct stable_same_deadline as (HR & HG & HW).
  repeat split.
  - apply (preserves_tryBuildFinalProof same_deadline cfg env fuel proof HR HG HW w).
  - apply (preserves_tryAggregateProofs same_deadline cfg env fuel HR HG HW w).
  - apply (preserves_tryGenerateBatchProof same_deadline cfg env fuel HR HG HW w).
  - intros idle done n.
    apply (preserves_Channel_loop same_deadline cfg env idle done fuel n HR HG HW w).
Qed.

(** X2: called with a proof, [tryBuildFinalProof] never writes to the store:
    the proof table and the open transaction are as they were, whether it
    returns or panics. *)
Theorem tryBuildFinalProof_provided_keeps_table
    (cfg : Config) (env : Env) (fuel : nat) (p : Proof.t) (w : World) :
  ends_with (tryBuildFinalProof cfg env fuel (Some p) w)
    (fun w' => proofs w' = proofs w /\ pending w' = pending w).
Proof.
  destruct stable_same_table as (HR & HG).
  apply (preserves_tryBuildFinalProof_provided same_table cfg env fuel p HR HG w).
Qed.

(** X3: the functions that select and lock, unlock, or build inputs and
    final proofs leave the gate alone: neither the deadline nor
    [verifyingProof] changes, whether they return or panic. *)
Theorem helpers_keep_gate
    (cfg : Config) (env : Env) (fuel : nat) (w : World) :
  ends_with (getAndLockProofsToAggregate env w) (same_gate w) /\
  (forall proof1 proof2,
      ends_with (unlockProofsToAggregate env proof1 proof2 w) (same_gate w)) /\
  ends_with (getAndLockBatchToProve env w) (same_gate w) /\
  (forall lv, ends_with (getAndLockProofReadyToVerify env lv w) (same_gate w)) /\
  (forall proof, ends_with (buildFinalProof env proof w) (same_gate w)) /\
  (forall batch, ends_with (buildInputProver cfg env batch w) (same_gate w)) /\
  ends_with (waitSynced cfg env fuel w) (same_gate w).
Proof.
  destruct stable_same_gate as (HR & HW).
  repeat split; intros.
  - apply (preserves_getAndLockProofsToAggregate same_gate env HR HW w).
  - apply (preserves_unlockProofsToAggregate same_gate env proof1 proof2 HR HW w).
  - apply (preserves_getAndLockBatchToProve same_gate env HR HW w).
  - apply (preserves_getAndLockProofReadyToVerify same_gate env lv HR HW w).
  - apply (preserves_buildFinalProof same_gate env proof HR w).
  - apply (preserves_buildInputProver same_gate cfg env batch HR w).
  - apply (preserves_waitSynced same_gate cfg env fuel HR w).
Qed.

(** ** How [tryBuildFinalProof] ends *)

Lemma tryBuildFinalProof_outcome cfg env fuel proof w p' b e w' :
  tryBuildFinalProof cfg env fuel proof w = Ret (p', (b, e)) w' ->
  (b = true ->
     e = None /\ verifyingProof w' = true /\
     exists msg, last (trace w') = Some (EvSendFinalProof msg) /\
                 recursiveProof msg = p' /\ proverID msg = prover_ID env) /\
  (e <> None -> b = false) /\
  (e <> None -> e <> Some ErrCanceled -> verifyingProof w' = false) /\
  (e = Some ErrCanceled -> proof <> None -> verifyingProof w' = true).
Proof.
  intros H.
  unfold tryBuildFinalProof in H. unfold bind at 1 in H.
  rewrite canVerifyProof_eq in H.
  destruct (Z.ltb_spec (TimeSendFinalProof w) (time_Now env (tick w))); simpl in H.
  2: { injection H as ? ? ? ?; subst. repeat split; congruence. }
  destruct (verifyingProof w) eqn:Hv; simpl in H.
  { injection H as ? ? ? ?; subst. repeat split; congruence. }
  unfold tryBuildFinalProof_build, getAndLockProofReadyToVerify, validateEligibleFinalProof,
    buildFinalProof, tryBuildFinalProof_defer1, tryBuildFinalProof_defer2,
    State_UpdateGeneratedProof, enableProofVerification in H.
  unfold_monad_in H. simpl in H.
  destruct (waitSynced cfg env fuel _) as [[] w2 | |] eqn:Hwait; try discriminate H.
  apply waitSynced_inv in Hwait as (k & n & ->).
  simpl in H. crunch H.
  all: injection H as ? ? ? ?; subst; simpl.
  all: try (destruct o0; simpl in *; discriminate).
  all: repeat split; try congruence; try discriminate.
  all: try (eexists; rewrite last_snoc; repeat split; reflexivity).
  all: try (unfold Errorf_w; match goal with |- context [match ?x with _ => _ end] =>
                                 destruct x end; congruence).
Qed.

(** X4: when [tryBuildFinalProof] returns true, it returns no error, the
    gate is held ([verifyingProof] is set) and the last thing it did was to
    send the message with the proof to the dispatcher; when it returns an
    error other than the cancellation of the aggregator's context, it returns
    false and has released the gate. *)
Theorem tryBuildFinalProof_gate_after
    (cfg : Config) (env : Env) (fuel : nat) (proof p' : option Proof.t)
    (w w' : World) (b : bool) (e : option error) :
  tryBuildFinalProof cfg env fuel proof w = Ret (p', (b, e)) w' ->
  (b = true ->
     e = None /\ verifyingProof w' = true /\
     exists msg, last (trace w') = Some (EvSendFinalProof msg) /\
                 recursiveProof msg = p' /\ proverID msg = prover_ID env) /\
  (e <> None -> e <> Some ErrCanceled -> b = false /\ verifyingProof w' = false).
Proof.
  intros H. apply tryBuildFinalProof_outcome in H as (H1 & H2 & H3 & _).
  split; [exact H1 | auto].
Qed.

(** X4 on a run: the prover refuses the request for the final proof of the
    eligible proof 11-12. *)
Lemma tryBuildFinalProof_gate_after_witness :
  exists p' b e w',
    tryBuildFinalProof Scenario.cfg (Scenario.env Scenario.final_proof_fails) 1
      (Some (Scenario.proof 11 12 true)) (Scenario.world 50 []) = Ret (p', (b, e)) w' /\
    e <> None /\ e <> Some ErrCanceled /\
    (b = true ->
       e = None /\ verifyingProof w' = true /\
       exists msg, last (trace w') = Some (EvSendFinalProof msg) /\
                   recursiveProof msg = p' /\
                   proverID msg = prover_ID (Scenario.env Scenario.final_proof_fails)) /\
    (e <> None -> e <> Some ErrCanceled -> b = false /\ verifyingProof w' = false).
Proof.
  eexists _, _, _, _. split; [vm_compute; reflexivity |].
  split; [discriminate |]. split; [discriminate |].
  apply (tryBuildFinalProof_gate_after Scenario.cfg (Scenario.env Scenario.final_proof_fails)
           1 (Some (Scenario.proof 11 12 true)) _ (Scenario.world 50 [])).
  vm_compute. reflexivity.
Defined.

(** X5: called with a proof, when [tryBuildFinalProof] returns the
    cancellation error of the aggregator's context, it returns false and
    leaves [verifyingProof] set: its deferred closure reads the variable
    [err], which that return does not assign. *)
Theorem tryBuildFinalProof_cancelled_keeps_gate
    (cfg : Config) (env : Env) (fuel : nat) (p : Proof.t) (p' : option Proof.t)
    (w w' : World) (b : bool) :
  tryBuildFinalProof cfg env fuel (Some p) w = Ret (p', (b, Some ErrCanceled)) w' ->
  b = false /\ verifyingProof w' = true.
Proof.
  intros H. apply tryBuildFinalProof_outcome in H as (_ & H2 & _ & H4).
  split; [apply H2 | apply H4]; congruence.
Qed.

(** X5 on a run: the context is cancelled when the final proof of 11-12 is
    ready to be sent. *)
Lemma tryBuildFinalProof_cancelled_keeps_gate_witness :
  exists p' b w',
    tryBuildFinalProof Scenario.cfg (Scenario2.cancelled (Scenario.env Scenario.quiet)) 1
      (Some (Scenario.proof 11 12 true)) (Scenario.world 50 [])
    = Ret (p', (b, Some ErrCanceled)) w' /\
    b = false /\ verifyingProof w' = true.
Proof.
  eexists _, _, _. split; [vm_compute; reflexivity |].
  eapply (tryBuildFinalProof_cancelled_keeps_gate Scenario.cfg
            (Scenario2.cancelled (Scenario.env Scenario.quiet)) 1
            (Scenario.proof 11 12 true) _ (Scenario.world 50 [])).
  vm_compute. reflexivity.
Defined.

(** ** The gate, once more *)

(** X6: while the gate is closed, because another session holds it or
    because the deadline has not passed, [tryBuildFinalProof] returns
    [(false, nil)] after reading the clock and does nothing else: no call of
    the store or of the prover, no event, no change of the gate. *)
Theorem tryBuildFinalProof_closed_gate
    (cfg : Config) (env : Env) (fuel : nat) (proof : option Proof.t) (w : World) :
  verifyingProof w = true \/ time_Now env (tick w) <= TimeSendFinalProof w ->
  tryBuildFinalProof cfg env fuel proof w = Ret (proof, (false, None)) (next_tick w).
Proof.
  intros Hclosed. unfold tryBuildFinalProof. unfold bind at 1.
  rewrite canVerifyProof_eq.
  destruct (Z.ltb_spec (TimeSendFinalProof w) (time_Now env (tick w))) as [Hlt | Hge];
    [| reflexivity].
  destruct Hclosed as [-> | Hle]; [reflexivity | lia].
Qed.

(** X6 on a run: another session holds the gate. *)
Lemma tryBuildFinalProof_closed_gate_witness :
  tryBuildFinalProof Scenario.cfg (Scenario.env Scenario.quiet) 1 None
    (set_verifyingProof true (Scenario.world 50 []))
  = Ret (None, (false, None)) (next_tick (set_verifyingProof true (Scenario.world 50 []))).
Proof.
  apply (tryBuildFinalProof_closed_gate Scenario.cfg (Scenario.env Scenario.quiet) 1 None
           (set_verifyingProof true (Scenario.world 50 []))).
  left. reflexivity.
Defined.

(** X7: the gate can be taken again as soon as it was released: after
    [canVerifyProof] returned true and [enableProofVerification] ran, the
    next [canVerifyProof] returns true as well, provided the clock does not
    run backwards to the deadline; nothing waits for [VerifyProofInterval]. *)
Theorem gate_release_allows_retry (env : Env) (w w1 : World) :
  canVerifyProof env w = Ret true w1 ->
  TimeSendFinalProof w < time_Now env (tick w1) ->
  exists w2 w3,
    enableProofVerification w1 = Ret tt w2 /\
    canVerifyProof env w2 = Ret true w3 /\
    TimeSendFinalProof w3 = TimeSendFinalProof w.
Proof.
  intros Hcan Hclock.
  apply canVerifyProof_true in Hcan as (-> & _ & _).
  rewrite enableProofVerification_eq. eexists _, _. split; [reflexivity |].
  rewrite canVerifyProof_eq. simpl in *.
  destruct (Z.ltb_spec (TimeSendFinalProof w) (time_Now env (S (tick w)))); [| lia].
  simpl. split; reflexivity.
Qed.

(** X7 on a run: deadline 50, clock at 100. *)
Lemma gate_release_allows_retry_witness :
  exists w2 w3,
    enableProofVerification (set_verifyingProof true (next_tick (Scenario.world 50 [])))
    = Ret tt w2 /\
    canVerifyProof (Scenario.env Scenario.quiet) w2 = Ret true w3 /\
    TimeSendFinalProof w3 = TimeSendFinalProof (Scenario.world 50 []).
Proof.
  apply (gate_release_allows_retry (Scenario.env Scenario.quiet) (Scenario.world 50 [])
           (set_verifyingProof true (next_tick (Scenario.world 50 []))));
    [reflexivity | simpl; lia].
Defined.

(** ** [isSynced] *)

Lemma error_eqb_eq e1 e2 : error_eqb e1 e2 = true <-> e1 = e2.
Proof.
  revert e2. induction e1 as [| | | m1 | m1 e1 IH]; intros [| | | m2 | m2 e2]; simpl;
    try (split; [discriminate | discriminate]); try tauto.
  - rewrite String.eqb_eq. split; congruence.
  - rewrite andb_true_iff, String.eqb_eq, IH. split; [intros [-> ->] | intros [= -> ->]]; auto.
Qed.

(** X8: [isSynced] answers true exactly when the store gives a last
    verified batch, with no error or with [state.ErrNotFound] itself (an
    error that only wraps it does not count), the L1 client gives its latest
    verified batch number without error, and the former is not below the
    latter; it changes nothing in the gate, the proof table or the trace. *)
Theorem isSynced_true_iff (env : Env) (w : World) :
  exists b n,
    isSynced env w = Ret b (advance n [] w) /\
    (b = true <->
       exists lvb err ethNum,
         GetLastVerifiedBatch env (tick w) = (Some lvb, err) /\
         (err = None \/ err = Some ErrNotFound) /\
         GetLatestVerifiedBatchNum env (S (tick w)) = (ethNum, None) /\
         ethNum <= VerifiedBatch.BatchNumber lvb).
Proof.
  assert (H2 : next_tick (next_tick w) = advance 2 [] w)
    by (rewrite !next_tick_advance, advance_advance; reflexivity).
  unfold isSynced. unfold_monad.
  destruct (GetLastVerifiedBatch env (tick w)) as [lvb err] eqn:Hlv.
  destruct (notNil err && negb (err_is_exactly err ErrNotFound)) eqn:Herr.
  { exists false, 1%nat. rewrite next_tick_advance. split; [reflexivity |].
    split; [discriminate |]. intros (lvb' & err' & n & Heq & Hor & _).
    inversion Heq; subst. destruct Hor; subst; simpl in Herr; discriminate. }
  assert (Herr' : err = None \/ err = Some ErrNotFound).
  { destruct err as [e |]; [| by left]. right. simpl in Herr.
    apply negb_false_iff, error_eqb_eq in Herr. by subst. }
  destruct lvb as [lvb |].
  2: { exists false, 1%nat. rewrite next_tick_advance. split; [reflexivity |].
       split; [discriminate |]. intros (lvb' & err' & n & Heq & _). discriminate. }
  simpl.
  destruct (GetLatestVerifiedBatchNum env (S (tick w))) as [n err2] eqn:Heth.
  destruct err2 as [e2 |]; simpl.
  { exists false, 2%nat. rewrite H2. split; [reflexivity |].
    split; [discriminate |]. intros (lvb' & err' & n' & _ & _ & Heq & _). discriminate. }
  destruct (Z.ltb_spec (VerifiedBatch.BatchNumber lvb) n).
  - exists false, 2%nat. rewrite H2. split; [reflexivity |].
    split; [discriminate |]. intros (lvb' & err' & n' & Heq1 & _ & Heq2 & Hle).
    inversion Heq1; inversion Heq2; subst. lia.
  - exists true, 2%nat. rewrite H2. split; [reflexivity |].
    split; [| reflexivity]. intros _. exists lvb, err, n. auto.
Qed.

(** ** Locking and unlocking the proofs to aggregate *)

Lemma getAndLockProofsToAggregate_outcome env w p1 p2 err w' :
  getAndLockProofsToAggregate env w = Ret (p1, p2, err) w' ->
  (err <> None -> proofs w' = proofs w /\ p1 = None /\ p2 = None) /\
  (err = None ->
     exists q1 q2,
       p1 = Some q1 /\ p2 = Some q2 /\
       Proof.Generating q1 = true /\ Proof.Generating q2 = true /\
       proofs w' = alter (fun _ => q2) (Proof.key q2)
                     (alter (fun _ => q1) (Proof.key q1) (proofs w)) /\
       pending w' = None).
Proof.
  intros H.
  unfold getAndLockProofsToAggregate, State_BeginStateTransaction,
    State_UpdateGeneratedProof, dbTx_Commit, dbTx_Rollback in H.
  unfold_monad_in H. simpl in H. crunch H.
  all: injection H as ? ? ? ?; subst; simpl.
  all: split;
    [ intros Hne; try (exfalso; apply Hne; reflexivity); auto
    | intros Heq; try discriminate Heq; try (subst; simpl in *; discriminate) ].
  eexists _, _. repeat split.
Qed.

Lemma unlockProofsToAggregate_outcome env q1 q2 w err w' :
  unlockProofsToAggregate env (Some q1) (Some q2) w = Ret err w' ->
  (err <> None -> proofs w' = proofs w) /\
  (err = None ->
     proofs w' = alter (fun _ => Proof.setGenerating false q2) (Proof.key q2)
                   (alter (fun _ => Proof.setGenerating false q1) (Proof.key q1)
                      (proofs w)) /\
     pending w' = None).
Proof.
  intros H.
  unfold unlockProofsToAggregate, State_BeginStateTransaction,
    State_UpdateGeneratedProof, dbTx_Commit, dbTx_Rollback in H.
  unfold_monad_in H. simpl in H. crunch H.
  all: injection H as ? ?; subst; simpl.
  all: split;
    [ intros Hne; try (exfalso; apply Hne; reflexivity); auto
    | intros Heq; try discriminate Heq; try (subst; simpl in *; discriminate) ].
  all: try (unfold Errorf_w in Heq;
            match type of Heq with context [match ?x with _ => _ end] => destruct x end;
            discriminate).
  split; reflexivity.
Qed.

(** X9: [getAndLockProofsToAggregate] locks both proofs or none: when it
    returns an error it returns no proof and the proof rows are as before
    (the transaction was rolled back or never committed); when it returns no
    error it returns two proofs marked generating, both rows have been
    rewritten with them, and no transaction is left open. *)
Theorem getAndLockProofsToAggregate_all_or_nothing
    (env : Env) (w w' : World) (p1 p2 : option Proof.t) (err : option error) :
  getAndLockProofsToAggregate env w = Ret (p1, p2, err) w' ->
  (err <> None -> proofs w' = proofs w /\ p1 = None /\ p2 = None) /\
  (err = None ->
     exists q1 q2,
       p1 = Some q1 /\ p2 = Some q2 /\
       Proof.Generating q1 = true /\ Proof.Generating q2 = true /\
       proofs w' = alter (fun _ => q2) (Proof.key q2)
                     (alter (fun _ => q1) (Proof.key q1) (proofs w)) /\
       pending w' = None).
Proof. apply getAndLockProofsToAggregate_outcome. Qed.

(** X9 on a run: proofs 11-11 and 12-12 are selected and locked. *)
Lemma getAndLockProofsToAggregate_all_or_nothing_witness :
  exists p1 p2 err w',
    getAndLockProofsToAggregate (Scenario.env Scenario2.two_proofs)
      (Scenario.world 150 [Scenario.proof 11 11 false; Scenario.proof 12 12 false])
    = Ret (p1, p2, err) w' /\
    (err <> None ->
       proofs w' = proofs (Scenario.world 150
                             [Scenario.proof 11 11 false; Scenario.proof 12 12 false]) /\
       p1 = None /\ p2 = None) /\
    (err = None ->
       exists q1 q2,
         p1 = Some q1 /\ p2 = Some q2 /\
         Proof.Generating q1 = true /\ Proof.Generating q2 = true /\
         proofs w' = alter (fun _ => q2) (Proof.key q2)
                       (alter (fun _ => q1) (Proof.key q1)
                          (proofs (Scenario.world 150
                                     [Scenario.proof 11 11 false;
                                      Scenario.proof 12 12 false]))) /\
         pending w' = None).
Proof.
  eexists _, _, _, _. split; [vm_compute; reflexivity |].
  apply (getAndLockProofsToAggregate_all_or_nothing (Scenario.env Scenario2.two_proofs)
           (Scenario.world 150 [Scenario.proof 11 11 false; Scenario.proof 12 12 false])).
  vm_compute. reflexivity.
Defined.

(** X10: locking then unlocking restores the proof rows: if the two proofs
    that [getAndLockProofsToAggregate] returned are the rows of the table
    (which had them with [generating = false]) and
    [unlockProofsToAggregate] succeeds on them, the table is what it was
    before the lock. *)
Theorem lock_then_unlock_restores_rows
    (env : Env) (w w1 w2 : World) (q1 q2 : Proof.t) :
  getAndLockProofsToAggregate env w = Ret (Some q1, Some q2, None) w1 ->
  unlockProofsToAggregate env (Some q1) (Some q2) w1 = Ret None w2 ->
  proofs w !! Proof.key q1 = Some (Proof.setGenerating false q1) ->
  proofs w !! Proof.key q2 = Some (Proof.setGenerating false q2) ->
  proofs w2 = proofs w /\ pending w2 = None.
Proof.
  intros Hlock Hunlock Hrow1 Hrow2.
  apply getAndLockProofsToAggregate_outcome in Hlock as (_ & Hlock).
  destruct (Hlock eq_refl) as (q1' & q2' & [= <-] & [= <-] & _ & _ & Hrows1 & _).
  apply unlockProofsToAggregate_outcome in Hunlock as (_ & Hunlock).
  destruct (Hunlock eq_refl) as (Hrows2 & Hpending).
  split; [| exact Hpending].
  rewrite Hrows2, Hrows1. apply map_eq. intros i.
  rewrite !lookup_alter.
  repeat case_decide; subst; rewrite ?Hrow1, ?Hrow2; simpl; try reflexivity;
    congruence.
Qed.

(** X10 on a run: 11-11 and 12-12 are locked and unlocked again. *)
Lemma lock_then_unlock_restores_rows_witness :
  exists q1 q2 w1 w2,
    getAndLockProofsToAggregate (Scenario.env Scenario2.two_proofs)
      (Scenario.world 150 [Scenario.proof 11 11 false; Scenario.proof 12 12 false])
    = Ret (Some q1, Some q2, None) w1 /\
    unlockProofsToAggregate (Scenario.env Scenario2.two_proofs) (Some q1) (Some q2) w1
    = Ret None w2 /\
    proofs w2 = proofs (Scenario.world 150
                          [Scenario.proof 11 11 false; Scenario.proof 12 12 false]) /\
    pending w2 = None.
Proof.
  eexists _, _, _, _. split; [vm_compute; reflexivity |].
  split; [vm_compute; reflexivity |].
  eapply (lock_then_unlock_restores_rows (Scenario.env Scenario2.two_proofs)
            (Scenario.world 150 [Scenario.proof 11 11 false; Scenario.proof 12 12 false]));
    vm_compute; reflexivity.
Defined.

(** ** The dispatcher releases the gate *)

(** Every path of the loop body that returns ends with
    [enableProofVerification] or [resetVerifyProofTime]. *)
Lemma sendFinalProof_handle_releases cfg env fuel msg w w' :
  sendFinalProof_handle cfg env fuel msg w = Ret tt w' ->
  verifyingProof w' = false.
Proof.
  intros H.
  unfold sendFinalProof_handle, State_UpdateGeneratedProof, State_DeleteGeneratedProofs,
    enableProofVerification, resetVerifyProofTime in H.
  unfold_monad_in H. simpl in H. crunch H.
  all: injection H as ?; subst; reflexivity.
Qed.

(** X11: the dispatcher hands the gate back after every message: when
    [sendFinalProof] returns, either it handled no message (its trace is
    the one it started with, and so is [verifyingProof]) or
    [verifyingProof] is false, whatever failed while the messages were
    handled. *)
Theorem sendFinalProof_releases_gate
    (cfg : Config) (env : Env) (fuel : nat) (msgs : list finalProofMsg) (w w' : World) :
  sendFinalProof cfg env fuel msgs w = Ret tt w' ->
  verifyingProof w' = false \/
  (verifyingProof w' = verifyingProof w /\ trace w' = trace w).
Proof.
  revert w. induction msgs as [| msg rest IH]; intros w H; simpl in H.
  - injection H as <-. right. split; reflexivity.
  - unfold bind at 1, ask in H.
    destruct (ctx_Done env (tick w)).
    + injection H as <-. right. split; reflexivity.
    + unfold bind in H.
      destruct (sendFinalProof_handle cfg env fuel msg (next_tick w)) as [[] w1 | |] eqn:Hh;
        try discriminate H.
      apply sendFinalProof_handle_releases in Hh.
      destruct (IH w1 H) as [Hf | [Hv _]]; left; congruence.
Qed.

(** X11 on a run: the submission to L1 fails for both messages. *)
Lemma sendFinalProof_releases_gate_witness :
  exists w',
    sendFinalProof Scenario.cfg (Scenario.env Scenario.l1_failure) 2
      [Scenario.msg 11 12; Scenario.msg 13 13]
      (set_verifyingProof true (Scenario.world 50 [Scenario.proof 11 12 true])) = Ret tt w' /\
    (verifyingProof w' = false \/
     (verifyingProof w' =
        verifyingProof (set_verifyingProof true (Scenario.world 50 [Scenario.proof 11 12 true])) /\
      trace w' =
        trace (set_verifyingProof true (Scenario.world 50 [Scenario.proof 11 12 true])))).
Proof.
  eexists. split; [vm_compute; reflexivity |].
  eapply (sendFinalProof_releases_gate Scenario.cfg (Scenario.env Scenario.l1_failure) 2
            [Scenario.msg 11 12; Scenario.msg 13 13]).
  vm_compute. reflexivity.
Defined.

(** ** Generating a batch proof *)

(** Called with a proof, [tryBuildFinalProof] hands the same proof back. *)
Lemma tryBuildFinalProof_provided_proof_back cfg env fuel p w p' r w' :
  tryBuildFinalProof cfg env fuel (Some p) w = Ret (p', r) w' ->
  (p' = Some p \/ exists id, p' = Some (Proof.setProofID id p)) /\
  (r = (false, None) -> p' = Some p).
Proof.
  intros H.
  unfold tryBuildFinalProof in H. unfold bind at 1 in H.
  rewrite canVerifyProof_eq in H.
  destruct ((TimeSendFinalProof w <? time_Now env (tick w)) && negb (verifyingProof w));
    simpl in H.
  2: { injection H as ? ? ?; subst. split; auto. }
  unfold tryBuildFinalProof_build, validateEligibleFinalProof,
    buildFinalProof, tryBuildFinalProof_defer1, tryBuildFinalProof_defer2,
    State_UpdateGeneratedProof, enableProofVerification in H.
  unfold_monad_in H. simpl in H.
  destruct (waitSynced cfg env fuel _) as [[] w2 | |] eqn:Hwait; try discriminate H.
  simpl in H. crunch H.
  all: injection H as ? ? ?; subst.
  all: split; [solve [left; reflexivity | right; eexists; reflexivity] |].
  all: intros Hr; try discriminate Hr; try reflexivity.
  all: try (injection Hr as ?; destruct o0, o6; simpl in *; discriminate).
Qed.

(** What a call of [tryBuildFinalProof] with a proof leaves behind, for its
    callers. *)
Lemma tryBuildFinalProof_provided_ret cfg env fuel p w p' b e w' :
  tryBuildFinalProof cfg env fuel (Some p) w = Ret (p', (b, e)) w' ->
  (b = false -> e = None -> p' = Some p) /\
  proofs w' = proofs w /\ pending w' = pending w /\
  (b = true -> e = None /\ verifyingProof w' = true) /\
  (e <> None -> b = false).
Proof.
  intros H.
  split; [intros Hb He; subst;
          exact (proj2 (tryBuildFinalProof_provided_proof_back _ _ _ _ _ _ _ _ H) eq_refl) |].
  destruct stable_same_table as (HR & HG).
  pose proof (preserves_tryBuildFinalProof_provided same_table cfg env fuel p HR HG w) as Hp.
  unfold wp in Hp. rewrite H in Hp. destruct Hp as (Hp1 & Hp2).
  destruct (tryBuildFinalProof_outcome _ _ _ _ _ _ _ _ _ H) as (Ht & He & _).
  split; [exact Hp1 |]. split; [exact Hp2 |]. split; [| exact He].
  intros Hb. destruct (Ht Hb) as (? & ? & _). split; assumption.
Qed.


Lemma getAndLockBatchToProve_outcome env w b p err w' :
  getAndLockBatchToProve env w = Ret (b, p, err) w' ->
  pending w' = pending w /\
  (err <> None -> proofs w' = proofs w /\ b = None /\ p = None) /\
  (err = None ->
     (b = None /\ p = None /\ proofs w' = proofs w) \/
     (exists btv q,
        b = Some btv /\ p = Some q /\
        Proof.key q = (Batch.BatchNumber btv, Batch.BatchNumber btv) /\
        Proof.Generating q = true /\
        proofs w' = <[Proof.key q := q]> (proofs w))).
Proof.
  intros H.
  unfold getAndLockBatchToProve, State_AddGeneratedProof in H.
  unfold_monad_in H. simpl in H. crunch H.
  all: injection H as ? ? ? ?; subst; simpl.
  all: split; [reflexivity |].
  all: split; [intros Hne; try (exfalso; apply Hne; reflexivity); auto
              | intros Heq; try discriminate Heq; try (subst; simpl in *; discriminate)].
  all: try (left; repeat split; reflexivity).
  right. eexists _, _. repeat split; reflexivity.
Qed.

Lemma buildInputProver_table cfg env batch w r w' :
  buildInputProver cfg env batch w = Ret r w' ->
  proofs w' = proofs w /\ pending w' = pending w.
Proof.
  intros H. destruct stable_same_table as (HR & _).
  pose proof (preserves_buildInputProver same_table cfg env batch HR w) as Hp.
  unfold wp in Hp. rewrite H in Hp. exact Hp.
Qed.

Lemma delete_inserted_row_subset (n : Z) (q : Proof.t) (m : gmap (Z * Z) Proof.t) k r :
  delete_range n n (<[(n, n) := q]> m) !! k = Some r -> m !! k = Some r.
Proof.
  rewrite delete_range_lookup.
  destruct (in_range n n k) eqn:Hin; [discriminate |].
  rewrite lookup_insert_ne; [tauto |].
  intros <-. unfold in_range in Hin. simpl in Hin.
  rewrite Z.leb_refl in Hin. discriminate.
Qed.

Lemma tryGenerateBatchProof_outcome cfg env fuel w b e w' :
  tryGenerateBatchProof cfg env fuel w = Ret (b, e) w' ->
  pending w' = pending w /\
  (b = false -> e = None -> proofs w' = proofs w) /\
  (e <> None ->
     b = false /\
     ((forall t, DeleteGeneratedProofs_err env t = None) ->
      forall k r, proofs w' !! k = Some r -> proofs w !! k = Some r)) /\
  (b = true ->
     e = None /\
     exists n q,
       Proof.key q = (n, n) /\
       proofs w' = <[(n, n) := q]> (proofs w) /\
       (Proof.Generating q = false \/
        (Proof.Generating q = true /\ verifyingProof w' = true))).
Proof.
  intros H.
  unfold tryGenerateBatchProof in H. unfold bind at 1 in H.
  destruct (getAndLockBatchToProve env w) as [[[btp p] e0] w0 | |] eqn:Hlock;
    try discriminate H.
  apply getAndLockBatchToProve_outcome in Hlock as (Hpend0 & Herr0 & Hok0).
  destruct (errors_Is e0 ErrNotFound) eqn:Hnf.
  { injection H as ? ? ?; subst.
    assert (He0 : e0 <> None) by (intros ->; discriminate Hnf).
    destruct (Herr0 He0) as (Hrows & _).
    repeat split; try congruence; try discriminate. }
  destruct e0 as [e0 |]; simpl in H.
  { injection H as ? ? ?; subst.
    destruct (Herr0 ltac:(discriminate)) as (Hrows & _).
    split; [exact Hpend0 |]. split; [discriminate |].
    split; [| discriminate].
    intros _. split; [reflexivity |]. intros _ k r. rewrite Hrows. tauto. }
  destruct (Hok0 eq_refl) as [(-> & -> & Hrows0) | (btv & q & -> & -> & Hkey & Hgen & Hrows0)].
  { unfold_monad_in H. simpl in H. discriminate H. }
  clear Herr0 Hok0 Hnf.
  unfold tryGenerateBatchProof_defer, State_DeleteGeneratedProofs, State_UpdateGeneratedProof in H.
  unfold_monad_in H. simpl in H.
  crunch H.
  all: injection H as ? ?; subst; simpl.
  all: repeat match goal with
       | Hx : buildInputProver _ _ _ _ = Ret _ _ |- _ =>
           apply buildInputProver_table in Hx as (? & ?)
       | Hx : tryBuildFinalProof _ _ _ _ _ = Ret _ _ |- _ =>
           apply tryBuildFinalProof_provided_ret in Hx as (? & ? & ? & ? & ?)
       end.
  all: try match goal with
           | Hx : false = true |- _ => discriminate Hx
           | Hx : true = false |- _ => discriminate Hx
           end.
  all: unfold Proof.key in Hkey; simpl in Hkey; injection Hkey as Hb Hf.
  all: simpl in *.
  all: split; [congruence |].
  all: split; [intros Hb' He; try discriminate Hb';
               try (match type of He with Errorf_w _ ?o = None => destruct o end;
                    simpl in *; discriminate);
               try (subst; simpl in *; discriminate) |].
  all: split; [intros Hne;
               first [ solve [exfalso; apply Hne; reflexivity]
                     | split; [reflexivity |]; intros Hdel;
                       first [ solve [match goal with
                                      | Hx : DeleteGeneratedProofs_err _ _ = Some _ |- _ =>
                                          rewrite Hdel in Hx; discriminate Hx
                                      end]
                             | intros k r; rewrite Hb, Hf;
                               repeat match goal with
                                      | Hx : proofs _ = _ |- _ => rewrite Hx; clear Hx
                                      end;
                               simpl; rewrite ?Hb, ?Hf;
                               unfold Proof.key; rewrite ?Hb, ?Hf;
                               apply delete_inserted_row_subset ] ]
              | intros Hb'; try discriminate Hb'].
  all: split; [reflexivity |].
  - destruct b0; [discriminate |]. destruct o6; [discriminate |].
    rewrite (H1 eq_refl eq_refl). simpl. unfold Proof.key. simpl.
    rewrite H2, H, Hrows0. unfold Proof.key. rewrite Hb, Hf.
    rewrite alter_insert_eq.
    eexists _, _. split; [| split; [reflexivity | left; reflexivity]].
    unfold Proof.key. simpl. rewrite Hb, Hf. reflexivity.
  - destruct b0; [| discriminate]. destruct (H4 eq_refl) as (_ & Hv).
    exists (Batch.BatchNumber btv), q.
    split; [unfold Proof.key; rewrite Hb, Hf; reflexivity |].
    split; [| right; split; assumption].
    rewrite H2, H, Hrows0. unfold Proof.key. rewrite Hb, Hf. reflexivity.
Qed.

(** X12: a batch proof that was not generated leaves no row behind.  When
    [tryGenerateBatchProof] returns false, with or without an error, and the
    store's [DeleteGeneratedProofs] does not fail, every row of the proof
    table was there before the call, with the same content: the row inserted
    by [getAndLockBatchToProve] has been deleted by the deferred closure.
    Without an error (nothing to prove) the table is the one before the
    call.  No transaction is opened. *)
Theorem tryGenerateBatchProof_failure_leaves_no_row
    (cfg : Config) (env : Env) (fuel : nat) (w w' : World) (e : option error) :
  (forall t, DeleteGeneratedProofs_err env t = None) ->
  tryGenerateBatchProof cfg env fuel w = Ret (false, e) w' ->
  pending w' = pending w /\
  (forall k r, proofs w' !! k = Some r -> proofs w !! k = Some r) /\
  (e = None -> proofs w' = proofs w).
Proof.
  intros Hdel H.
  apply tryGenerateBatchProof_outcome in H as (Hpend & Hnone & Herr & _).
  split; [exact Hpend |]. split; [| exact (Hnone eq_refl)].
  destruct e as [e |].
  - destruct (Herr ltac:(discriminate)) as (_ & Hsub). exact (Hsub Hdel).
  - intros k r. rewrite (Hnone eq_refl eq_refl). tauto.
Qed.

(** X12 on a run: the row 11-11 is inserted, the final proof fails, and the
    row is gone when the operation returns; the row 5-8 is untouched. *)
Lemma tryGenerateBatchProof_failure_leaves_no_row_witness :
  exists e w',
    tryGenerateBatchProof Scenario.cfg (Scenario.env Scenario.final_proof_fails) 1
      (Scenario.world 50 [Scenario.proof 5 8 false]) = Ret (false, e) w' /\
    pending w' = pending (Scenario.world 50 [Scenario.proof 5 8 false]) /\
    (forall k r, proofs w' !! k = Some r ->
                 proofs (Scenario.world 50 [Scenario.proof 5 8 false]) !! k = Some r) /\
    (e = None -> proofs w' = proofs (Scenario.world 50 [Scenario.proof 5 8 false])).
Proof.
  eexists _, _. split; [vm_compute; reflexivity |].
  apply (tryGenerateBatchProof_failure_leaves_no_row Scenario.cfg
           (Scenario.env Scenario.final_proof_fails) 1
           (Scenario.world 50 [Scenario.proof 5 8 false])).
  - intros t. reflexivity.
  - vm_compute. reflexivity.
Defined.

(** X13: a generated batch proof is stored under the range of its batch, and
    unlocked unless it was handed on.  When [tryGenerateBatchProof] returns
    true it returns no error and the proof table is the one before the call
    with one row written, for a range [n, n]; that row has
    [generating = false], or it has [generating = true] and the gate is held
    ([verifyingProof] is set: the proof went to the dispatcher as a final
    proof). *)
Theorem tryGenerateBatchProof_success_stores_row
    (cfg : Config) (env : Env) (fuel : nat) (w w' : World) (e : option error) :
  tryGenerateBatchProof cfg env fuel w = Ret (true, e) w' ->
  e = None /\ pending w' = pending w /\
  exists n q,
    Proof.key q = (n, n) /\
    proofs w' = <[(n, n) := q]> (proofs w) /\
    (Proof.Generating q = false \/
     (Proof.Generating q = true /\ verifyingProof w' = true)).
Proof.
  intros H.
  apply tryGenerateBatchProof_outcome in H as (Hpend & _ & _ & Hok).
  destruct (Hok eq_refl) as (He & Hrow). auto.
Qed.

(** X13 on a run: the gate's deadline has not passed, the proof of batch 11
    is stored with [generating = false]. *)
Lemma tryGenerateBatchProof_success_stores_row_witness :
  exists e w',
    tryGenerateBatchProof Scenario.cfg (Scenario.env Scenario.quiet) 1
      (Scenario.world 150 []) = Ret (true, e) w' /\
    e = None /\ pending w' = pending (Scenario.world 150 []) /\
    exists n q,
      Proof.key q = (n, n) /\
      proofs w' = <[(n, n) := q]> (proofs (Scenario.world 150 [])) /\
      (Proof.Generating q = false \/
       (Proof.Generating q = true /\ verifyingProof w' = true)).
Proof.
  eexists _, _. split; [vm_compute; reflexivity |].
  apply (tryGenerateBatchProof_success_stores_row Scenario.cfg
           (Scenario.env Scenario.quiet) 1 (Scenario.world 150 [])).
  vm_compute. reflexivity.
Defined.

(** ** The history of a monitored tx *)

Lemma historyStringSlice_elem (m : gmap string bool) (h : string) :
  h ∈ historyStringSlice (Some m) <-> is_Some (m !! h).
Proof.
  simpl. rewrite list_elem_of_fmap. split.
  - intros ([k v] & -> & Hin). apply elem_of_map_to_list in Hin. exists v. exact Hin.
  - intros (v & Hv). exists (h, v). split; [reflexivity |].
    apply elem_of_map_to_list. exact Hv.
Qed.

(** X14: [historyStringSlice] lists every hash of the history exactly once:
    the slice has no duplicates, a string is in it exactly when it is a key
    of the map, and its length is the size of the map; for the nil map it is
    empty.  This holds for any order in which the map is traversed. *)
Theorem historyStringSlice_keys (history : option (gmap string bool)) :
  NoDup (historyStringSlice history) /\
  (forall h : string,
      h ∈ historyStringSlice history <->
      exists m, history = Some m /\ is_Some (m !! h)) /\
  length (historyStringSlice history) = match history with
                                        | Some m => size m
                                        | None => 0%nat
                                        end.
Proof.
  destruct history as [m |]; simpl.
  - split; [apply NoDup_fst_map_to_list |]. split.
    + intros h. rewrite (historyStringSlice_elem m h). split.
      * intros Hs. exists m. split; [reflexivity | exact Hs].
      * intros (m' & [= <-] & Hs). exact Hs.
    + rewrite length_fmap, length_map_to_list. reflexivity.
  - split; [constructor |]. split; [| reflexivity].
    intros h. split; [intros Hin; inversion Hin | intros (m & Hm & _); discriminate].
Qed.

(** X15: [AddHistory] records a hash once.  When it returns, the history map
    was not nil; it returned [ErrAlreadyExists] exactly when the hash was
    already recorded, and then the map is unchanged; afterwards the hash is
    in [historyStringSlice], whose other entries are the ones from before,
    and a second [AddHistory] of the same hash returns [ErrAlreadyExists]
    and changes nothing. *)
Theorem AddHistory_records_once
    (txHash : string) (history history' : option (gmap string bool))
    (err : option error) :
  AddHistory txHash history = Ret err history' ->
  history <> None /\
  (err = Some ErrAlreadyExists <-> txHash ∈ historyStringSlice history) /\
  (err <> None -> history' = history) /\
  (forall h, h ∈ historyStringSlice history' <->
             h = txHash \/ h ∈ historyStringSlice history) /\
  AddHistory txHash history' = Ret (Some ErrAlreadyExists) history'.
Proof.
  intros H. unfold AddHistory in H.
  destruct history as [m |]; [| discriminate H].
  split; [discriminate |].
  pose proof historyStringSlice_elem as Hmem.
  destruct (m !! txHash) as [b |] eqn:Hlook.
  - injection H as <- <-. split; [| split; [| split]].
    + split; [intros _; apply Hmem; eauto | reflexivity].
    + reflexivity.
    + intros h. split; [auto |]. intros [-> | Hin]; [apply Hmem; eauto | exact Hin].
    + unfold AddHistory. rewrite Hlook. reflexivity.
  - injection H as <- <-. split; [| split; [| split]].
    + split; [discriminate |]. intros Hin. apply Hmem in Hin as [v Hv]. congruence.
    + intros Hne. exfalso. apply Hne. reflexivity.
    + intros h. rewrite !Hmem. rewrite lookup_insert_is_Some.
      destruct (decide (txHash = h)) as [-> | Hne].
      * split; auto.
      * split; [intros [-> | [_ Hs]]; auto | intros [-> | Hs]; [congruence | auto]].
    + unfold AddHistory. rewrite lookup_insert_eq. reflexivity.
Qed.

(** X15 on a run: the hash is new. *)
Lemma AddHistory_records_once_witness :
  exists err history',
    AddHistory "0xa1" (Some {["0xb2" := true]}) = Ret err history' /\
    Some ({["0xb2" := true]} : gmap string bool) <> None /\
    (err = Some ErrAlreadyExists <->
     "0xa1" ∈ historyStringSlice (Some {["0xb2" := true]})) /\
    (err <> None -> history' = Some {["0xb2" := true]}) /\
    (forall h, h ∈ historyStringSlice history' <->
               h = "0xa1" \/ h ∈ historyStringSlice (Some {["0xb2" := true]})) /\
    AddHistory "0xa1" history' = Ret (Some ErrAlreadyExists) history'.
Proof.
  eexists _, _. split; [vm_compute; reflexivity |].
  apply (AddHistory_records_once "0xa1" (Some {["0xb2" := true]})).
  vm_compute. reflexivity.
Defined.

(** ** Renewing an enqueued transaction *)

(** What [renewGas] does to the inner transaction. *)
Lemma renewGas_outcome rebuild tx err tx' :
  renewGas rebuild tx = Ret err tx' ->
  exists cur t,
    tx = Some cur /\
    rebuild (Gas (Tx_inner cur)) None (Some (Nonce (Tx_inner cur))) true = (t, err) /\
    tx' = if notNil err then tx else t.
Proof.
  unfold renewGas. unfold_monad. destruct tx as [cur |]; simpl; [| discriminate].
  destruct (rebuild _ _ _ _) as [t e] eqn:Hr.
  destruct e as [e |]; simpl; intros [= <- <-]; exists cur, t; auto.
Qed.

(** The returns of [enqueuedSequencesTx.RenewTxIfNeeded]. *)
Lemma RenewTxIfNeeded_sequences_inv
    (rebuild : Z -> option Z -> option Z -> bool -> option Transaction * option error)
    (estimate : option Transaction) (eerr : option error)
    (tx tx' : option Transaction) (err : option error) :
  RenewTxIfNeeded_sequences rebuild (estimate, eerr) tx = Ret err tx' ->
  (err <> None -> tx' = tx) /\
  (err = None ->
     eerr = None /\
     exists est cur,
       estimate = Some est /\ tx = Some cur /\
       if Gas (Tx_inner cur) <? Gas (Tx_inner est)
       then rebuild (Gas (Tx_inner cur)) None (Some (Nonce (Tx_inner cur))) true
            = (tx', None)
       else tx' = tx).
Proof.
  unfold RenewTxIfNeeded_sequences. unfold_monad.
  destruct eerr as [e |]; simpl.
  { intros [= <- <-]. split; [reflexivity | discriminate]. }
  destruct estimate as [est |]; simpl; [| discriminate].
  destruct tx as [cur |]; simpl; [| discriminate].
  destruct (Gas (Tx_inner cur) <? Gas (Tx_inner est)) eqn:Hlt.
  - destruct (renewGas rebuild (Some cur)) as [e1 tx1 | |] eqn:Hrenew; try discriminate.
    apply renewGas_outcome in Hrenew as (cur' & t & [= <-] & Hr & ->).
    destruct e1 as [e1 |]; simpl; intros [= <- <-].
    + split; [reflexivity | discriminate].
    + split; [intros Hne; exfalso; apply Hne; reflexivity |].
      intros _. split; [reflexivity |]. exists est, cur. rewrite Hlt. auto.
  - intros [= <- <-]. split; [reflexivity |].
    intros _. split; [reflexivity |]. exists est, cur. rewrite Hlt. auto.
Qed.

(** X16: [enqueuedSequencesTx.RenewTxIfNeeded] replaces the inner
    transaction only when it returns nil and the estimate needs more gas
    than the inner transaction has.  When it returns an error the inner
    transaction is the one from before.  When it returns nil, the estimate
    came without error, and either its gas is not above the inner
    transaction's and nothing changed, or the inner transaction is the
    answer of [SequenceBatches] asked with the old transaction's gas, no gas
    price, the old nonce and [noSend]. *)
Theorem RenewTxIfNeeded_sequences_outcome
    (rebuild : Z -> option Z -> option Z -> bool -> option Transaction * option error)
    (estimate : option Transaction) (eerr : option error)
    (tx tx' : option Transaction) (err : option error) :
  RenewTxIfNeeded_sequences rebuild (estimate, eerr) tx = Ret err tx' ->
  (err <> None -> tx' = tx) /\
  (err = None ->
     eerr = None /\
     exists est cur,
       estimate = Some est /\ tx = Some cur /\
       if Gas (Tx_inner cur) <? Gas (Tx_inner est)
       then rebuild (Gas (Tx_inner cur)) None (Some (Nonce (Tx_inner cur))) true
            = (tx', None)
       else tx' = tx).
Proof. apply RenewTxIfNeeded_sequences_inv. Qed.

(** X16 on a run: the estimate asks for 90000 gas, the inner transaction
    has 60000. *)
Lemma RenewTxIfNeeded_sequences_outcome_witness :
  let rebuild := fun (gas : Z) (_ : option Z) (nonce : option Z) (_ : bool) =>
                   (Some (Scenario2.tx (default 0 nonce) gas), @None error) in
  exists err tx',
    RenewTxIfNeeded_sequences rebuild (Some (Scenario2.tx 0 90000), None)
      (Some (Scenario2.tx 4 60000)) = Ret err tx' /\
    (err <> None -> tx' = Some (Scenario2.tx 4 60000)) /\
    (err = None ->
       @None error = None /\
       exists est cur,
         Some (Scenario2.tx 0 90000) = Some est /\ Some (Scenario2.tx 4 60000) = Some cur /\
         if Gas (Tx_inner cur) <? Gas (Tx_inner est)
         then rebuild (Gas (Tx_inner cur)) None (Some (Nonce (Tx_inner cur))) true
              = (tx', None)
         else tx' = Some (Scenario2.tx 4 60000)).
Proof.
  intros rebuild. eexists _, _. split; [vm_compute; reflexivity |].
  apply (RenewTxIfNeeded_sequences_outcome rebuild (Some (Scenario2.tx 0 90000)) None
           (Some (Scenario2.tx 4 60000))).
  vm_compute. reflexivity.
Defined.

(** The returns of [enqueuedVerifyBatchesTx.RenewTxIfNeeded]. *)
Lemma RenewTxIfNeeded_verifyBatches_inv
    (rebuild : Z -> option Z -> option Z -> bool -> option Transaction * option error)
    (estimatedGas : Z) (eerr : option error)
    (tx tx' : option Transaction) (err : option error) :
  RenewTxIfNeeded_verifyBatches rebuild (estimatedGas, eerr) tx = Ret err tx' ->
  (err <> None -> tx' = tx) /\
  (err = None ->
     eerr = None /\
     exists cur,
       tx = Some cur /\
       if Gas (Tx_inner cur) <? estimatedGas
       then rebuild (Gas (Tx_inner cur)) None (Some (Nonce (Tx_inner cur))) true
            = (tx', None)
       else tx' = tx).
Proof.
  unfold RenewTxIfNeeded_verifyBatches. unfold_monad.
  destruct eerr as [e |]; simpl.
  { intros [= <- <-]. split; [reflexivity | discriminate]. }
  destruct tx as [cur |]; simpl; [| discriminate].
  destruct (Gas (Tx_inner cur) <? estimatedGas) eqn:Hlt.
  - destruct (renewGas rebuild (Some cur)) as [e1 tx1 | |] eqn:Hrenew; try discriminate.
    apply renewGas_outcome in Hrenew as (cur' & t & [= <-] & Hr & ->).
    destruct e1 as [e1 |]; simpl; intros [= <- <-].
    + split; [reflexivity | discriminate].
    + split; [intros Hne; exfalso; apply Hne; reflexivity |].
      intros _. split; [reflexivity |]. exists cur. rewrite Hlt. auto.
  - intros [= <- <-]. split; [reflexivity |].
    intros _. split; [reflexivity |]. exists cur. rewrite Hlt. auto.
Qed.

(** X17: [enqueuedVerifyBatchesTx.RenewTxIfNeeded] replaces the inner
    transaction only when it returns nil and the estimated gas is above the
    inner transaction's gas; then the inner transaction is the answer of
    [VerifyBatches] asked with the old transaction's gas (not the estimate),
    no gas price, the old nonce and [noSend].  When it returns an error the
    inner transaction is the one from before. *)
Theorem RenewTxIfNeeded_verifyBatches_outcome
    (rebuild : Z -> option Z -> option Z -> bool -> option Transaction * option error)
    (estimatedGas : Z) (eerr : option error)
    (tx tx' : option Transaction) (err : option error) :
  RenewTxIfNeeded_verifyBatches rebuild (estimatedGas, eerr) tx = Ret err tx' ->
  (err <> None -> tx' = tx) /\
  (err = None ->
     eerr = None /\
     exists cur,
       tx = Some cur /\
       if Gas (Tx_inner cur) <? estimatedGas
       then rebuild (Gas (Tx_inner cur)) None (Some (Nonce (Tx_inner cur))) true
            = (tx', None)
       else tx' = tx).
Proof. apply RenewTxIfNeeded_verifyBatches_inv. Qed.

(** X17 on a run: the L1 client refuses to rebuild the transaction. *)
Lemma RenewTxIfNeeded_verifyBatches_outcome_witness :
  let rebuild := fun (_ : Z) (_ : option Z) (_ : option Z) (_ : bool) =>
                   (@None Transaction, Some (ErrMsg "nonce too low")) in
  exists err tx',
    RenewTxIfNeeded_verifyBatches rebuild (90000, None) (Some (Scenario2.tx 4 60000))
    = Ret err tx' /\
    (err <> None -> tx' = Some (Scenario2.tx 4 60000)) /\
    (err = None ->
       @None error = None /\
       exists cur,
         Some (Scenario2.tx 4 60000) = Some cur /\
         if Gas (Tx_inner cur) <? 90000
         then rebuild (Gas (Tx_inner cur)) None (Some (Nonce (Tx_inner cur))) true
              = (tx', None)
         else tx' = Some (Scenario2.tx 4 60000)).
Proof.
  intros rebuild. eexists _, _. split; [vm_compute; reflexivity |].
  apply (RenewTxIfNeeded_verifyBatches_outcome rebuild 90000 None
           (Some (Scenario2.tx 4 60000))).
  vm_compute. reflexivity.
Defined.

(** X18: a renewal does not raise the gas.  If the L1 client builds the
    transaction with the gas limit it is asked for, then after
    [RenewTxIfNeeded] returned nil the inner transaction has the gas it had
    before, for both kinds of enqueued transaction: an estimate above the
    old gas is still above the gas of the renewed transaction. *)
Theorem RenewTxIfNeeded_keeps_gas
    (rebuild : Z -> option Z -> option Z -> bool -> option Transaction * option error)
    (cur new : Transaction) :
  (forall gas gasPrice nonce noSend t,
      rebuild gas gasPrice nonce noSend = (Some t, None) -> Gas (Tx_inner t) = gas) ->
  (forall estimate,
      RenewTxIfNeeded_sequences rebuild estimate (Some cur) = Ret None (Some new) ->
      Gas (Tx_inner new) = Gas (Tx_inner cur)) /\
  (forall estimate,
      RenewTxIfNeeded_verifyBatches rebuild estimate (Some cur) = Ret None (Some new) ->
      Gas (Tx_inner new) = Gas (Tx_inner cur)).
Proof.
  intros Hgas. split.
  - intros [estimate eerr] H.
    apply RenewTxIfNeeded_sequences_inv in H as (_ & H).
    destruct (H eq_refl) as (_ & est & cur' & _ & [= <-] & Hcase).
    destruct (Gas (Tx_inner cur) <? Gas (Tx_inner est)).
    + apply (Hgas _ _ _ _ _ Hcase).
    + injection Hcase as ->. reflexivity.
  - intros [estimatedGas eerr] H.
    apply RenewTxIfNeeded_verifyBatches_inv in H as (_ & H).
    destruct (H eq_refl) as (_ & cur' & [= <-] & Hcase).
    destruct (Gas (Tx_inner cur) <? estimatedGas).
    + apply (Hgas _ _ _ _ _ Hcase).
    + injection Hcase as ->. reflexivity.
Qed.

(** X18 on a run: the estimate is 90000, the renewed transaction still has
    the 60000 of the old one. *)
Lemma RenewTxIfNeeded_keeps_gas_witness :
  let rebuild := fun (gas : Z) (_ : option Z) (nonce : option Z) (_ : bool) =>
                   (Some (Scenario2.tx (default 0 nonce) gas), @None error) in
  RenewTxIfNeeded_verifyBatches rebuild (90000, None) (Some (Scenario2.tx 4 60000))
  = Ret None (Some (Scenario2.tx 4 60000)) /\
  Gas (Tx_inner (Scenario2.tx 4 60000)) = 60000 /\
  (60000 <? 90000) = true.
Proof.
  intros rebuild.
  assert (Hrun : RenewTxIfNeeded_verifyBatches rebuild (90000, None)
                   (Some (Scenario2.tx 4 60000))
                 = Ret None (Some (Scenario2.tx 4 60000))) by (vm_compute; reflexivity).
  split; [exact Hrun |].
  split; [| reflexivity].
  assert (Hgas : forall gas gasPrice nonce noSend t,
             rebuild gas gasPrice nonce noSend = (Some t, None) -> Gas (Tx_inner t) = gas).
  { intros gas gasPrice nonce noSend t [= <-]. reflexivity. }
  exact (proj2 (RenewTxIfNeeded_keeps_gas rebuild (Scenario2.tx 4 60000)
                  (Scenario2.tx 4 60000) Hgas) (90000, None) Hrun).
Defined.

(** ** Aggregation while the gate is held *)

(** *** Rules for [wp], one per statement *)

Lemma wp_ret {S A : Type} (a : A) (s : S) Q P : Q a s -> wp (ret a) s Q P.
Proof. intros H. exact H. Qed.

Lemma wp_lift {V A : Type} (m : M World A) (f : Frame World V) w Q P :
  wp m w (fun a w' => Q a (f, w')) (fun w' => P (f, w')) -> wp (lift m) (f, w) Q P.
Proof. unfold wp, lift. simpl. destruct (m w); auto. Qed.

Lemma wp_set_vars {V : Type} (v : V) (f : Frame World V) w Q P :
  Q tt ({| vars := v; deferred := deferred f |}, w) -> wp (set_vars v) (f, w) Q P.
Proof. intros H. exact H. Qed.

Lemma wp_defer {V : Type} (d : V -> M World unit) (f : Frame World V) w Q P :
  Q tt ({| vars := vars f; deferred := d :: deferred f |}, w) -> wp (defer d) (f, w) Q P.
Proof. intros H. exact H. Qed.

Lemma wp_deref {S A : Type} (p : option A) (s : S) Q :
  (forall x, p = Some x -> Q x s) -> wp (deref p) s Q (fun _ => True).
Proof. intros H. destruct p; [apply H; reflexivity | exact I]. Qed.

Lemma wp_run_frame {V A : Type} (v0 : V) (body : F World V A) w Q :
  wp body ({| vars := v0; deferred := [] |}, w)
    (fun r fw => wp (run_deferred (deferred (fst fw)) (vars (fst fw))) (snd fw)
                   (fun _ w'' => Q (vars (fst fw), r) w'') (fun _ => True))
    (fun _ => True) ->
  wp (run_frame v0 body) w Q (fun _ => True).
Proof.
  unfold wp, run_frame. destruct (body _) as [r [f w1] | [f w1] |]; simpl; [| | auto].
  - destruct (run_deferred _ _ w1); auto.
  - intros _. destruct (run_deferred _ _ w1); auto.
Qed.

Lemma wp_run_deferred_one {V : Type} (d : V -> M World unit) (v : V) w Q :
  wp (d v) w Q (fun _ => True) -> wp (run_deferred [d] v) w Q (fun _ => True).
Proof.
  unfold wp. simpl. destruct (d v w) as [[] w1 | w1 |]; simpl; auto.
Qed.

(** One statement of a function body. *)
Ltac wp_step :=
  lazymatch goal with
  | |- wp (bind _ _) _ _ _ => apply wp_bind
  | |- wp (ret _) _ _ _ => apply wp_ret
  | |- wp (lift _) (_, _) _ _ => apply wp_lift
  | |- wp (set_vars _) (_, _) _ _ => apply wp_set_vars
  | |- wp (defer _) (_, _) _ _ => apply wp_defer
  | |- wp (deref _) _ _ _ =>
      let x := fresh "x" in let E := fresh "E" in
      apply wp_deref; intros x E; first [injection E as <- | subst]
  | |- wp (run_frame _ _) _ _ _ => apply wp_run_frame
  | |- wp (run_deferred [_] _) _ _ _ => apply wp_run_deferred_one
  end.

(** *** What the statements do to the store while the gate is held *)

Lemma held_ask {A : Type} env (f : Env -> nat -> A) tbl pend w Q P :
  held_with tbl pend w ->
  (forall w', held_with tbl pend w' -> Q (f env (tick w)) w') ->
  wp (ask env f) w Q P.
Proof. intros Hw HQ. apply HQ. exact Hw. Qed.

Lemma held_begin env tbl pend w Q P :
  store_works env -> held_with tbl pend w ->
  (forall w', held_with tbl (Some tbl) w' -> Q (Some tt, None) w') ->
  wp (State_BeginStateTransaction env) w Q P.
Proof.
  intros (_ & Hbegin & _) (Ht & Hp & Hv) HQ.
  unfold wp, State_BeginStateTransaction. unfold_monad. rewrite Hbegin. simpl.
  apply HQ. repeat split; simpl; auto. by rewrite Ht.
Qed.

Lemma held_write env failure f tbl m w Q P :
  held_with tbl (Some m) w ->
  (forall w', held_with tbl (Some (f m)) w' -> Q None w') ->
  (forall e w', held_with tbl (Some m) w' -> Q (Some e) w') ->
  wp (store_write env failure (Some tt) f) w Q P.
Proof.
  intros (Ht & Hp & Hv) Hok Herr.
  unfold wp, store_write. unfold_monad.
  destruct (failure env (tick w)) as [e |]; simpl.
  - apply Herr. repeat split; auto.
  - apply Hok. repeat split; simpl; auto. by rewrite Hp.
Qed.

Lemma held_update env q tbl pend w Q P :
  store_works env -> held_with tbl pend w ->
  (forall w', held_with (alter (fun _ => q) (Proof.key q) tbl) pend w' -> Q None w') ->
  wp (State_UpdateGeneratedProof env q None) w Q P.
Proof.
  intros (Hupd & _) (Ht & Hp & Hv) HQ.
  unfold wp, State_UpdateGeneratedProof. unfold_monad. simpl. rewrite Hupd. simpl.
  apply HQ. repeat split; simpl; auto. by rewrite Ht.
Qed.

Lemma held_update_tx env q tbl m w Q P :
  store_works env -> held_with tbl (Some m) w ->
  (forall w', held_with tbl (Some (alter (fun _ => q) (Proof.key q) m)) w' -> Q None w') ->
  wp (State_UpdateGeneratedProof env q (Some tt)) w Q P.
Proof.
  intros (Hupd & _) (Ht & Hp & Hv) HQ.
  unfold wp, State_UpdateGeneratedProof. unfold_monad. simpl. rewrite Hupd. simpl.
  apply HQ. repeat split; simpl; auto. by rewrite Hp.
Qed.

Lemma held_delete_tx env from to tbl m w Q P :
  held_with tbl (Some m) w ->
  (forall w', held_with tbl (Some (delete_range from to m)) w' -> Q None w') ->
  (forall e w', held_with tbl (Some m) w' -> Q (Some e) w') ->
  wp (State_DeleteGeneratedProofs env from to (Some tt)) w Q P.
Proof.
  intros (Ht & Hp & Hv) Hok Herr.
  unfold State_DeleteGeneratedProofs. apply wp_bind. unfold wp at 1. simpl.
  apply (held_write env DeleteGeneratedProofs_err (delete_range from to) tbl m); auto.
  repeat split; auto.
Qed.

Lemma held_add_tx env q tbl m w Q P :
  held_with tbl (Some m) w ->
  (forall w', held_with tbl (Some (<[Proof.key q := q]> m)) w' -> Q None w') ->
  (forall e w', held_with tbl (Some m) w' -> Q (Some e) w') ->
  wp (State_AddGeneratedProof env q (Some tt)) w Q P.
Proof.
  intros (Ht & Hp & Hv) Hok Herr.
  unfold State_AddGeneratedProof. apply wp_bind. unfold wp at 1. simpl.
  apply (held_write env AddGeneratedProof_err (insert (Proof.key q) q) tbl m); auto.
  repeat split; auto.
Qed.

Lemma held_rollback tbl pend w Q P :
  held_with tbl pend w ->
  (forall w', held_with tbl None w' -> Q tt w') ->
  wp dbTx_Rollback w Q P.
Proof. intros (Ht & Hp & Hv) HQ. apply HQ. repeat split; auto. Qed.

Lemma held_commit env tbl m w Q P :
  store_works env -> held_with tbl (Some m) w ->
  (forall w', held_with m None w' -> Q None w') ->
  wp (dbTx_Commit env) w Q P.
Proof.
  intros (_ & _ & Hcommit) (Ht & Hp & Hv) HQ.
  unfold wp, dbTx_Commit. unfold_monad. rewrite Hcommit. simpl. rewrite Hp.
  apply HQ. repeat split; auto.
Qed.

(** With the gate held, [tryBuildFinalProof] only reads the clock. *)
Lemma tryBuildFinalProof_held cfg env fuel proof w :
  verifyingProof w = true ->
  tryBuildFinalProof cfg env fuel proof w = Ret (proof, (false, None)) (next_tick w).
Proof.
  intros Hv. unfold tryBuildFinalProof. unfold bind at 1.
  rewrite canVerifyProof_eq, Hv, andb_false_r. reflexivity.
Qed.

Lemma held_tryBuildFinalProof cfg env fuel proof tbl pend w Q P :
  held_with tbl pend w ->
  (forall w', held_with tbl pend w' -> Q (proof, (false, None)) w') ->
  wp (tryBuildFinalProof cfg env fuel proof) w Q P.
Proof.
  intros (Ht & Hp & Hv) HQ. unfold wp. rewrite (tryBuildFinalProof_held _ _ _ _ _ Hv).
  apply HQ. repeat split; auto.
Qed.

Lemma held_unlockProofsToAggregate env q1 q2 tbl pend w Q :
  store_works env -> held_with tbl pend w ->
  (forall w',
      held_with (alter (fun _ => Proof.setGenerating false q2) (Proof.key q2)
                   (alter (fun _ => Proof.setGenerating false q1) (Proof.key q1) tbl))
        None w' -> Q None w') ->
  wp (unlockProofsToAggregate env (Some q1) (Some q2)) w Q (fun _ => True).
Proof.
  intros Hstore Hw HQ. unfold unlockProofsToAggregate.
  wp_step. eapply held_begin; [exact Hstore | exact Hw |].
  intros w1 H1. cbn [notNil]. cbv beta iota.
  wp_step. wp_step.
  wp_step. eapply held_update_tx; [exact Hstore | exact H1 |].
  intros w2 H2. cbn [notNil]. cbv beta iota.
  wp_step. wp_step. wp_step.
  eapply held_update_tx; [exact Hstore | exact H2 |].
  intros w3 H3. cbn [notNil]. cbv beta iota.
  wp_step. eapply held_commit; [exact Hstore | exact H3 |].
  intros w4 H4. cbn [notNil]. cbv beta iota. wp_step. apply HQ. exact H4.
Qed.

Lemma held_getAndLockProofsToAggregate env tbl pend w Q :
  store_works env -> held_with tbl pend w ->
  (forall e w', held_with tbl pend w' -> Q (None, None, Some e) w') ->
  (forall r1 r2 w',
      GetProofsToAggregate env (tick w) = (Some r1, Some r2, None) ->
      held_with (alter (fun _ => Proof.setGenerating true r2) (Proof.key r2)
                   (alter (fun _ => Proof.setGenerating true r1) (Proof.key r1) tbl))
        None w' ->
      Q (Some (Proof.setGenerating true r1), Some (Proof.setGenerating true r2), None) w') ->
  wp (getAndLockProofsToAggregate env) w Q (fun _ => True).
Proof.
  intros Hstore Hw Herr Hok. unfold getAndLockProofsToAggregate.
  wp_step. eapply held_ask; [exact Hw |]. intros w1 H1.
  destruct (GetProofsToAggregate env (tick w)) as [[p1 p2] e] eqn:Hsel.
  destruct e as [e |]; cbn [notNil]; cbv beta iota.
  { wp_step. apply Herr. exact H1. }
  wp_step. eapply held_begin; [exact Hstore | exact H1 |]. intros w2 H2.
  cbn [notNil]. cbv beta iota.
  wp_step. wp_step.
  wp_step. eapply held_update_tx; [exact Hstore | exact H2 |]. intros w3 H3.
  cbn [notNil]. cbv beta iota.
  wp_step. wp_step. wp_step.
  wp_step. eapply held_update_tx; [exact Hstore | exact H3 |]. intros w4 H4.
  wp_step. cbn [notNil]. cbv beta iota.
  wp_step. eapply held_commit; [exact Hstore | exact H4 |]. intros w5 H5.
  cbn [notNil]. cbv beta iota.
  wp_step. apply (Hok x x0 w5 eq_refl). exact H5.
Qed.

Lemma setGenerating_back (p : Proof.t) :
  Proof.Generating p = false ->
  Proof.setGenerating false (Proof.setGenerating true p) = p.
Proof. destruct p; simpl; intros ->; reflexivity. Qed.

(** Unlocking the two rows after locking them gives the table back. *)
Lemma unlock_after_lock_table (m : gmap (Z * Z) Proof.t) (p1 p2 : Proof.t) :
  m !! Proof.key p1 = Some p1 -> m !! Proof.key p2 = Some p2 ->
  Proof.Generating p1 = false -> Proof.Generating p2 = false ->
  alter (fun _ => Proof.setGenerating false (Proof.setGenerating true p2)) (Proof.key p2)
    (alter (fun _ => Proof.setGenerating false (Proof.setGenerating true p1)) (Proof.key p1)
       (alter (fun _ => Proof.setGenerating true p2) (Proof.key p2)
          (alter (fun _ => Proof.setGenerating true p1) (Proof.key p1) m))) = m.
Proof.
  intros H1 H2 G1 G2. rewrite !setGenerating_back by assumption.
  apply map_eq. intros i. rewrite !lookup_alter.
  repeat case_decide; subst; rewrite ?H1, ?H2; simpl; try reflexivity; congruence.
Qed.

(** Rows of the deleted range can be rewritten first without a difference. *)
Lemma delete_range_alter (from to : Z) (f : Proof.t -> Proof.t) (k : Z * Z)
    (m : gmap (Z * Z) Proof.t) :
  in_range from to k = true ->
  delete_range from to (alter f k m) = delete_range from to m.
Proof.
  intros Hin. apply map_eq. intros i. rewrite !delete_range_lookup.
  destruct (in_range from to i) eqn:Hi; [reflexivity |].
  rewrite lookup_alter_ne; [reflexivity | congruence].
Qed.

(** The table after an aggregation whose proof was stored unlocked. *)
Lemma aggregated_table (m : gmap (Z * Z) Proof.t) (r1 r2 P : Proof.t) f1 f2 :
  Proof.BatchNumber r1 <= Proof.BatchNumber r2 ->
  Proof.BatchNumberFinal r1 <= Proof.BatchNumberFinal r2 ->
  alter (fun _ => Proof.setGenerating false P) (Proof.key P)
    (<[Proof.key P := P]>
       (delete_range (Proof.BatchNumber r1) (Proof.BatchNumberFinal r2)
          (alter f2 (Proof.key r2) (alter f1 (Proof.key r1) m))))
  = <[Proof.key P := Proof.setGenerating false P]>
      (delete_range (Proof.BatchNumber r1) (Proof.BatchNumberFinal r2) m).
Proof.
  intros Hle1 Hle2. rewrite alter_insert_eq.
  rewrite !delete_range_alter by (apply in_range_true; simpl; lia).
  reflexivity.
Qed.

(** An error return of [tryAggregateProofs] after the lock: the deferred
    closure unlocks the two rows. *)
Ltac exit_unlocking Hstore Hk Hrestore :=
  wp_step; cbn [fst snd vars deferred];
  wp_step; unfold tryAggregateProofs_defer; cbn [notNil]; cbv beta iota;
  wp_step; eapply held_unlockProofsToAggregate; [exact Hstore | exact Hk |];
  let w' := fresh "w'" in let Hw' := fresh "Hw'" in
  intros w' Hw'; wp_step; wp_step; cbn [fst snd];
  destruct Hw' as (Hw' & _ & _);
  split; [intros _; rewrite Hw'; exact Hrestore |];
  split; [intros _; reflexivity | intros Hb; discriminate Hb].

Lemma tryAggregateProofs_held_wp cfg env fuel w :
  store_works env -> verifyingProof w = true -> selects_rows env w ->
  wp (tryAggregateProofs cfg env fuel) w
    (fun r w' =>
       (fst r = false -> proofs w' = proofs w) /\
       (snd r <> None -> fst r = false) /\
       (fst r = true ->
          snd r = None /\
          exists p1 p2 P,
            GetProofsToAggregate env (tick w) = (Some p1, Some p2, None) /\
            Proof.key P = (Proof.BatchNumber p1, Proof.BatchNumberFinal p2) /\
            Proof.Generating P = false /\
            proofs w' = <[Proof.key P := P]>
                          (delete_range (Proof.BatchNumber p1) (Proof.BatchNumberFinal p2)
                             (proofs w))))
    (fun _ => True).
Proof.
  intros Hstore Hgate Hsel.
  assert (Hw : held_with (proofs w) (pending w) w) by (repeat split; auto).
  unfold tryAggregateProofs.
  wp_step. eapply held_getAndLockProofsToAggregate; [exact Hstore | exact Hw | |].
  { intros e w1 (H1 & _). cbv beta iota. cbn [errors_Is notNil].
    destruct (unwraps_to ErrNotFound e); wp_step; cbn [fst snd];
      (split; [auto |]); (split; [auto |]); discriminate. }
  intros r1 r2 w1 Hget H1.
  destruct (Hsel r1 r2 Hget) as (Hr1 & Hr2 & Hg1 & Hg2 & Hle1 & Hle2).
  pose proof (unlock_after_lock_table (proofs w) r1 r2 Hr1 Hr2 Hg1 Hg2) as Hrestore.
  cbv beta iota. cbn [errors_Is notNil].
  wp_step. wp_step.
  wp_step. wp_step. cbn [vars deferred].
  wp_step. wp_step. wp_step.
  wp_step. wp_step. wp_step.
  wp_step. wp_step. eapply held_ask; [exact H1 |]. intros w2 H2.
  destruct (json_Marshal_pair env _ _ _) as [b err]. cbv beta iota.
  wp_step. wp_step. cbn [vars deferred].
  destruct err as [err |]; cbn [notNil]; cbv beta iota.
  { exit_unlocking Hstore H2 Hrestore. }
  wp_step. wp_step. eapply held_ask; [exact H2 |]. intros w3 H3.
  destruct (AggregatedProof env _ _ _) as [aggrProofID err]. cbv beta iota.
  wp_step. wp_step. cbn [vars deferred].
  destruct err as [err |]; cbn [notNil]; cbv beta iota.
  { exit_unlocking Hstore H3 Hrestore. }
  cbn [Proof.ProofID Proof.setProofID].
  wp_step. wp_step. wp_step.
  wp_step. wp_step. eapply held_ask; [exact H3 |]. intros w4 H4.
  destruct (WaitRecursiveProof env _ _) as [recursiveProof err]. cbv beta iota.
  wp_step. wp_step. cbn [vars deferred].
  destruct err as [err |]; cbn [notNil]; cbv beta iota.
  { exit_unlocking Hstore H4 Hrestore. }
  wp_step. wp_step. eapply held_begin; [exact Hstore | exact H4 |]. intros w5 H5.
  cbv beta iota. wp_step. wp_step. cbn [vars deferred notNil]. cbv beta iota.
  wp_step. wp_step. eapply held_delete_tx; [exact H5 | |].
  2: { intros e w6 H6. wp_step. wp_step. cbn [vars deferred notNil]. cbv beta iota.
       wp_step. wp_step. eapply held_rollback; [exact H6 |]. intros w7 H7.
       exit_unlocking Hstore H7 Hrestore. }
  intros w6 H6. wp_step. wp_step. cbn [vars deferred notNil]. cbv beta iota.
  wp_step. wp_step. eapply held_add_tx; [exact H6 | |].
  2: { intros e w7 H7. wp_step. wp_step. cbn [vars deferred notNil]. cbv beta iota.
       wp_step. wp_step. eapply held_rollback; [exact H7 |]. intros w8 H8.
       exit_unlocking Hstore H8 Hrestore. }
  intros w7 H7. wp_step. wp_step. cbn [vars deferred notNil]. cbv beta iota.
  wp_step. wp_step. eapply held_commit; [exact Hstore | exact H7 |]. intros w8 H8.
  wp_step. wp_step. cbn [vars deferred notNil]. cbv beta iota.
  wp_step. wp_step. eapply held_tryBuildFinalProof; [exact H8 |]. intros w9 H9.
  cbv beta iota. wp_step. wp_step. cbn [vars deferred notNil negb]. cbv beta iota.
  wp_step. wp_step. eapply held_update; [exact Hstore | exact H9 |]. intros w10 H10.
  wp_step. wp_step. cbn [vars deferred notNil]. cbv beta iota.
  wp_step. cbn [fst snd vars deferred].
  wp_step. unfold tryAggregateProofs_defer. cbn [notNil]. cbv beta iota.
  wp_step. wp_step. cbn [fst snd].
  destruct H10 as (Ht & _ & _). clear - Ht Hget Hle1 Hle2.
  split; [intros Hb; discriminate Hb |].
  split; [intros Hne; exfalso; apply Hne; reflexivity |].
  intros _. split; [reflexivity |].
  match type of Ht with
  | _ = alter _ _ (insert _ ?P _) =>
      exists r1, r2, (Proof.setGenerating false P);
      split; [exact Hget |]; split; [reflexivity |]; split; [reflexivity |];
      rewrite Ht; exact (aggregated_table (proofs w) r1 r2 P _ _ Hle1 Hle2)
  end.
Qed.

(** X19: while the gate is held by another final proof, an aggregation
    either stores its result unlocked or leaves the proof rows as they were.
    Assume that [verifyingProof] is set, that the store's updates and
    transactions do not fail, and that [GetProofsToAggregate] selects two
    rows of the table that are not being generated, the second not starting
    or ending before the first.  When [tryAggregateProofs] returns false,
    with or without an error, whatever else failed (the serialisation, the
    prover, the delete or the insert of the new row), the proof rows are
    the ones before the call: the deferred closure has unlocked the two
    proofs.  When it returns true it returns no error, and the rows of the
    aggregated range have been replaced by one row for the range from the
    first proof's first batch to the second proof's last batch, with
    [generating = false].  In both cases no row is left with
    [generating = true] that did not have it before. *)
Theorem tryAggregateProofs_held_gate
    (cfg : Config) (env : Env) (fuel : nat) (w w' : World) (b : bool) (e : option error) :
  store_works env -> verifyingProof w = true -> selects_rows env w ->
  tryAggregateProofs cfg env fuel w = Ret (b, e) w' ->
  (b = false -> proofs w' = proofs w) /\
  (e <> None -> b = false) /\
  (b = true ->
     e = None /\
     exists p1 p2 P,
       GetProofsToAggregate env (tick w) = (Some p1, Some p2, None) /\
       Proof.key P = (Proof.BatchNumber p1, Proof.BatchNumberFinal p2) /\
       Proof.Generating P = false /\
       proofs w' = <[Proof.key P := P]>
                     (delete_range (Proof.BatchNumber p1) (Proof.BatchNumberFinal p2)
                        (proofs w))) /\
  (forall k r, proofs w' !! k = Some r -> Proof.Generating r = true ->
               proofs w !! k = Some r).
Proof.
  intros Hstore Hgate Hsel H.
  pose proof (tryAggregateProofs_held_wp cfg env fuel w Hstore Hgate Hsel) as Hwp.
  unfold wp in Hwp. rewrite H in Hwp. cbn [fst snd] in Hwp.
  destruct Hwp as (Hfalse & Herr & Htrue).
  split; [exact Hfalse |]. split; [exact Herr |]. split; [exact Htrue |].
  intros k r Hk Hgen. destruct b.
  - destruct (Htrue eq_refl) as (_ & p1 & p2 & P & _ & _ & HP & Hrows).
    rewrite Hrows in Hk.
    destruct (decide (Proof.key P = k)) as [<- | Hne].
    + rewrite lookup_insert_eq in Hk. injection Hk as <-. congruence.
    + rewrite lookup_insert_ne in Hk by exact Hne.
      rewrite delete_range_lookup in Hk.
      destruct (in_range _ _ k); [discriminate | exact Hk].
  - rewrite (Hfalse eq_refl) in Hk. exact Hk.
Qed.

(** X19 on a run: the gate is held, the prover refuses the aggregation of
    11-11 and 12-12, and both rows are unlocked again. *)
Lemma tryAggregateProofs_held_gate_witness :
  let env := Scenario2.no_aggregation (Scenario.env Scenario2.two_proofs) in
  let w := set_verifyingProof true
             (Scenario.world 50 [Scenario.proof 11 11 false; Scenario.proof 12 12 false]) in
  exists b e w',
    tryAggregateProofs Scenario.cfg env 1 w = Ret (b, e) w' /\
    (b = false -> proofs w' = proofs w) /\
    (e <> None -> b = false) /\
    (b = true ->
       e = None /\
       exists p1 p2 P,
         GetProofsToAggregate env (tick w) = (Some p1, Some p2, None) /\
         Proof.key P = (Proof.BatchNumber p1, Proof.BatchNumberFinal p2) /\
         Proof.Generating P = false /\
         proofs w' = <[Proof.key P := P]>
                       (delete_range (Proof.BatchNumber p1) (Proof.BatchNumberFinal p2)
                          (proofs w))) /\
    (forall k r, proofs w' !! k = Some r -> Proof.Generating r = true ->
                 proofs w !! k = Some r).
Proof.
  intros env w. eexists _, _, _. split; [vm_compute; reflexivity |].
  apply (tryAggregateProofs_held_gate Scenario.cfg env 1 w).
  - repeat split; intros t; reflexivity.
  - reflexivity.
  - intros p1 p2 [= <- <-]. repeat split; try reflexivity; simpl; lia.
  - vm_compute. reflexivity.
Defined.

(** ** The scheduler loop ends with a context *)

(** X20: the scheduler loop of [Channel] returns only when one of the two
    contexts is done: whatever the three operations return, their errors
    are logged and the loop goes on.  When it returns, the aggregator's
    context or the stream's context was found done at the interaction
    point just before the one the loop stopped at. *)
Theorem Channel_loop_returns_on_done
    (cfg : Config) (env : Env) (prover_IsIdle stream_Done : nat -> bool)
    (fuel n : nat) (w w' : World) (e : option error) :
  Channel_loop cfg env prover_IsIdle stream_Done fuel n w = Ret e w' ->
  e <> None /\
  exists t, tick w' = S t /\ (ctx_Done env t = true \/ stream_Done t = true).
Proof.
  revert w. induction n as [| n IH]; intros w H; [discriminate H |].
  simpl in H. unfold bind at 1, ask at 1 in H.
  destruct (ctx_Done env (tick w)) eqn:Hdone.
  { injection H as <- <-. split; [discriminate |]. exists (tick w). auto. }
  unfold bind at 1, ask at 1 in H. simpl in H.
  destruct (stream_Done (S (tick w))) eqn:Hstream.
  { injection H as <- <-. split; [discriminate |]. exists (S (tick w)). auto. }
  unfold bind at 1 in H.
  destruct (Channel_pass cfg env prover_IsIdle fuel _) as [[] w1 | |]; try discriminate H.
  exact (IH w1 H).
Qed.

(** X20 on a run: the stream's context is done after the first pass, in
    which the prover was busy. *)
Lemma Channel_loop_returns_on_done_witness :
  exists e w',
    Channel_loop Scenario.cfg (Scenario.env Scenario.quiet)
      (fun _ => false) (fun t => (2 <? t)%nat) 1 3 (Scenario.world 50 []) = Ret e w' /\
    e <> None /\
    exists t, tick w' = S t /\
              (ctx_Done (Scenario.env Scenario.quiet) t = true \/ (2 <? t)%nat = true).
Proof.
  eexists _, _. split; [vm_compute; reflexivity |].
  apply (Channel_loop_returns_on_done Scenario.cfg (Scenario.env Scenario.quiet)
           (fun _ => false) (fun t => (2 <? t)%nat) 1 3 (Scenario.world 50 [])).
  vm_compute. reflexivity.
Defined.

(** ** [tryGenerateBatchProof] when the previous batch is missing *)

(** X21: [buildInputProver] lets [ErrStateNotSynchronized] pass and then
    reads the previous batch.  When [GetBatchByNumber] answers that error
    with no batch and [GetPublicAddress] succeeds, [buildInputProver]
    panics on the nil batch; in [tryGenerateBatchProof] the panic comes
    after the row of the batch was inserted with [generating = true], and
    the deferred closure, which sees [err] nil, does not delete it: the
    operation panics and the row stays. *)
Theorem tryGenerateBatchProof_previous_batch_missing
    (cfg : Config) (env : Env) (fuel : nat) (w : World)
    (lvb : VerifiedBatch.t) (btv : Batch.t) (addr : string) :
  GetLastVerifiedBatch env (tick w) = (Some lvb, None) ->
  GetVirtualBatchToProve env (S (tick w)) (VerifiedBatch.BatchNumber lvb) = (Some btv, None) ->
  IsProfitable env (S (S (tick w))) = (true, None) ->
  AddGeneratedProof_err env (S (S (S (tick w)))) = None ->
  GetBatchByNumber env (S (S (S (S (tick w))))) (uint64_sub (Batch.BatchNumber btv) 1)
  = (None, Some ErrStateNotSynchronized) ->
  GetPublicAddress env (S (S (S (S (S (tick w)))))) = (addr, None) ->
  (forall w0, tick w0 = S (S (S (S (tick w)))) ->
              exists w1, buildInputProver cfg env btv w0 = Panic w1) /\
  exists row w',
    tryGenerateBatchProof cfg env fuel w = Panic w' /\
    Proof.key row = (Batch.BatchNumber btv, Batch.BatchNumber btv) /\
    Proof.Generating row = true /\
    proofs w' = <[Proof.key row := row]> (proofs w) /\
    trace w' = trace w ++ [EvAddGeneratedProof row].
Proof.
  intros Hlv Hvb Hprofit Hadd Hprev Haddr. split.
  - intros w0 Hw0. unfold buildInputProver. unfold_monad.
    rewrite Hw0, Hprev. simpl. rewrite Hw0, Haddr. simpl. eexists. reflexivity.
  - unfold tryGenerateBatchProof, getAndLockBatchToProve, State_AddGeneratedProof,
      buildInputProver, tryGenerateBatchProof_defer.
    unfold_monad.
    rewrite Hlv. simpl. rewrite Hvb. simpl. rewrite Hprofit. simpl. rewrite Hadd. simpl.
    rewrite Hprev. simpl. rewrite Haddr. simpl.
    eexists _, _. split; [reflexivity |]. simpl. repeat split; reflexivity.
Qed.

(** X21 on a run: batch 11 is to be proved and the store has no batch 10. *)
Lemma tryGenerateBatchProof_previous_batch_missing_witness :
  let env := Scenario.env previous_batch_missing in
  let w := Scenario.world 50 [] in
  exists row w',
    tryGenerateBatchProof Scenario.cfg env 1 w = Panic w' /\
    Proof.key row = (11, 11) /\
    Proof.Generating row = true /\
    proofs w' = <[Proof.key row := row]> (proofs w) /\
    trace w' = trace w ++ [EvAddGeneratedProof row].
Proof.
  intros env w.
  apply (proj2 (tryGenerateBatchProof_previous_batch_missing Scenario.cfg env 1 w
                  (VerifiedBatch.mk 10) (Scenario.batch 11) _
                  eq_refl eq_refl eq_refl eq_refl eq_refl eq_refl)).
Defined.
